(** * ModularMusicVisualizer: audio analysis, value interpolation, frame pipe

    A shallow embedding of the parts of the Python sources that carry the
    audio-to-frame pipeline:

    - [FramePipe]: [FFmpegWrapper.write_to_pipe], [pipe_writer_loop] and
      [close_pipe] of [mmv/common/wrappers/wrap_ffmpeg.py];
    - [RawAudio]: [FFmpegWrapper.raw_audio_from_file] of the same file;
    - [RenderLoop]: the main thread of [MMVSkiaCore.run] in
      [mmv/mmvskia/mmv_skia_core.py] feeding that pipe and closing it;
    - [Interpolator], [InterpolatorRuns]: [ValuesInterpolator] of
      [run_shaders.py];
    - [Audio], [AudioProcess]: [AudioProcessing] of
      [mmv/common/cmn_audio.py], and the audio slicing of
      [MMVSkiaCore.run];
    - [AudioFileRead], [AudioSourceRealtime]: [AudioFile.read] and the
      capture loop of [AudioSourceRealtime] of [cmn_audio.py];
    - [Utils], [Interpolation]: [Utils.is_matching_type] of
      [mmv/common/cmn_utils.py] and the step functions of
      [interpolation.py].

    Python integers are [Z]; raw frames are byte lists; dictionaries are
    [gmap]s, or association lists where the iteration order matters.
    Sample values and audio features are exact rationals ([Qc]): the
    rounding of numpy's float32/float64 arithmetic, infinities and the NaNs
    that arithmetic can produce are outside this model; the one NaN the
    embedded code produces by itself (the median of an empty array) is
    represented explicitly. *)

From Stdlib Require Import ZArith Lia Permutation QArith Qcanon Qround Qcabs.
From stdpp Require Import gmap strings list fin_maps numbers sorting.
Close Scope Qc_scope.
Close Scope Q_scope.

(** ** Outcome of a Python call *)

(** A call returns a value or raises an exception, named by its class. *)
Inductive result (A : Type) : Type :=
| Return (a : A)
| Raise (exn : string).
Arguments Return {A} a.
Arguments Raise {A} exn.

Global Instance result_eq_dec {A : Type} `{EqDecision A} : EqDecision (result A).
Proof. solve_decision. Defined.

(** Sequencing: an exception ends the computation. *)
Global Instance result_ret : MRet result := fun A a => Return a.
Global Instance result_bind : MBind result := fun A B k c =>
  match c with
  | Return a => k a
  | Raise e => Raise e
  end.

(** The value a call returned, if it did. *)
Definition from_return {A : Type} (c : result A) : option A :=
  match c with
  | Return a => Some a
  | Raise _ => None
  end.

(** A loop that collects what each turn returns and stops at the first
    exception. *)
Fixpoint traverse {A B : Type} (f : A -> result B) (l : list A)
  : result (list B) :=
  match l with
  | [] => Return []
  | x :: l' => y ← f x; ys ← traverse f l'; Return (y :: ys)
  end.

(** * The frame pipe of [FFmpegWrapper] *)

Module FramePipe.

(** A rendered frame: the raw bytes handed to [subprocess.stdin.write]. *)
Definition image : Type := list Byte.byte.

(** Where the thread that runs [pipe_writer_loop] stands between two of its
    polling steps. *)
Inductive writer_pc : Type :=
| InLoop        (* at the test of [while not self.stop_piping] *)
| InClosePipe   (* inside the [close_pipe()] it called after the last frame *)
| Exited.       (* past [self.subprocess.stdin.close()] *)

(** The attributes of [FFmpegWrapper] the pipe uses, the bytes its
    subprocess has received on stdin, and the writer thread's position. *)
Record FFmpegWrapper : Type := mkWrapper {
  images_to_pipe : gmap Z image;
  stop_piping : bool;
  lock_writing : bool;
  max_images_on_pipe_buffer : Z;
  count : Z;
  stdin : list Byte.byte;
  stdin_closed : bool;
  writer : writer_pc;
}.

(** [configure_encoding] resets the flags and the buffer; the first lines of
    [pipe_writer_loop] set the bound and the counter. *)
Definition pipe_writer_start (max_images : Z) : FFmpegWrapper :=
  {| images_to_pipe := ∅;
     stop_piping := false;
     lock_writing := false;
     max_images_on_pipe_buffer := max_images;
     count := 0;
     stdin := [];
     stdin_closed := false;
     writer := InLoop |}.

(** The test of the [while] loop of [write_to_pipe]. *)
Definition too_many_images (w : FFmpegWrapper) : bool :=
  (max_images_on_pipe_buffer w <=? Z.of_nat (size (images_to_pipe w)))%Z.

(** [write_to_pipe(index, image)]: sleeps while the buffer is full, then
    [self.images_to_pipe[index] = image].  [None] stands for a call that is
    still in its [time.sleep] loop. *)
Definition write_to_pipe (w : FFmpegWrapper) (index : Z) (img : image)
  : option (result FFmpegWrapper) :=
  if too_many_images w then None
  else Some (Return
    {| images_to_pipe := <[index := img]> (images_to_pipe w);
       stop_piping := stop_piping w;
       lock_writing := lock_writing w;
       max_images_on_pipe_buffer := max_images_on_pipe_buffer w;
       count := count w;
       stdin := stdin w;
       stdin_closed := stdin_closed w;
       writer := writer w |}).

(** One polling step of the thread running
    [pipe_writer_loop(duration_seconds, fps, frame_count, ...)].  The
    progress line of [show_status], arithmetic on the clock, [fps] and
    [duration_seconds] (both taken to be positive), does not touch the pipe
    and is left out. *)
Definition pipe_writer_iteration (frame_count : Z) (w : FFmpegWrapper)
  : FFmpegWrapper :=
  match writer w with
  | InLoop =>
      if stop_piping w then
        (* the loop ends: self.subprocess.stdin.close() *)
        {| images_to_pipe := images_to_pipe w;
           stop_piping := stop_piping w;
           lock_writing := lock_writing w;
           max_images_on_pipe_buffer := max_images_on_pipe_buffer w;
           count := count w;
           stdin := stdin w;
           stdin_closed := true;
           writer := Exited |}
      else
        match images_to_pipe w !! count w with
        | Some img =>
            (* lock_writing = True; pop; write; lock_writing = False *)
            let popped := delete (count w) (images_to_pipe w) in
            let written := stdin w ++ img in
            if (count w =? frame_count - 1)%Z then
              (* self.close_pipe() is entered before self.count += 1 *)
              {| images_to_pipe := popped;
                 stop_piping := stop_piping w;
                 lock_writing := false;
                 max_images_on_pipe_buffer := max_images_on_pipe_buffer w;
                 count := count w;
                 stdin := written;
                 stdin_closed := stdin_closed w;
                 writer := InClosePipe |}
            else
              {| images_to_pipe := popped;
                 stop_piping := stop_piping w;
                 lock_writing := false;
                 max_images_on_pipe_buffer := max_images_on_pipe_buffer w;
                 count := (count w + 1)%Z;
                 stdin := written;
                 stdin_closed := stdin_closed w;
                 writer := InLoop |}
        | None => w   (* time.sleep(0.1) *)
        end
  | InClosePipe =>
      (* close_pipe: wait for an empty buffer, then for lock_writing to be
         off, then stop_piping = True; back in the loop, self.count += 1 *)
      if bool_decide (images_to_pipe w = ∅) && negb (lock_writing w) then
        {| images_to_pipe := images_to_pipe w;
           stop_piping := true;
           lock_writing := lock_writing w;
           max_images_on_pipe_buffer := max_images_on_pipe_buffer w;
           count := (count w + 1)%Z;
           stdin := stdin w;
           stdin_closed := stdin_closed w;
           writer := InLoop |}
      else w   (* time.sleep(0.1) *)
  | Exited => w
  end.

(** The writer thread running on its own for [k] polling steps. *)
Fixpoint pipe_writer_loop (frame_count : Z) (k : nat) (w : FFmpegWrapper)
  : FFmpegWrapper :=
  match k with
  | O => w
  | S k' => pipe_writer_loop frame_count k' (pipe_writer_iteration frame_count w)
  end.

(** What the two kinds of thread do, one atomic step at a time: a renderer
    thread completes a [write_to_pipe] call, or the writer thread makes one
    polling step. *)
Inductive action : Type :=
| Submit (index : Z) (img : image)
| Writer.

Definition perform (frame_count : Z) (w : FFmpegWrapper) (a : action)
  : option FFmpegWrapper :=
  match a with
  | Submit index img =>
      match write_to_pipe w index img with
      | Some (Return w') => Some w'
      | Some (Raise _) | None => None
      end
  | Writer => Some (pipe_writer_iteration frame_count w)
  end.

(** An interleaving of the threads, from the state [w].  It is [None] when
    it asks a [write_to_pipe] to go through at a moment the call cannot
    (the buffer is full). *)
Fixpoint schedule (frame_count : Z) (w : FFmpegWrapper) (acts : list action)
  : option FFmpegWrapper :=
  match acts with
  | [] => Some w
  | a :: acts' =>
      match perform frame_count w a with
      | Some w' => schedule frame_count w' acts'
      | None => None
      end
  end.

(** The frames an interleaving submits, in submission order. *)
Fixpoint submitted (acts : list action) : list (Z * image) :=
  match acts with
  | [] => []
  | Submit index img :: acts' => (index, img) :: submitted acts'
  | Writer :: acts' => submitted acts'
  end.

(** Frames [0 .. n-1] with their payloads, in index order. *)
Definition frames (payload : Z -> image) (n : nat) : list (Z * image) :=
  map (fun i : nat => (Z.of_nat i, payload (Z.of_nat i))) (seq 0 n).

(** The byte stream [payload 0 ++ payload 1 ++ ... ++ payload (n-1)]. *)
Definition in_order (payload : Z -> image) (n : nat) : list Byte.byte :=
  concat (map (fun i : nat => payload (Z.of_nat i)) (seq 0 n)).

(** Four frames, and a run that hands them over in the order 3, 1, 0, 2
    with the writer polling in between. *)
Definition four_payloads (i : Z) : image :=
  match i with
  | 0%Z => [Byte.x10; Byte.x11]
  | 1%Z => [Byte.x20]
  | 2%Z => []
  | 3%Z => [Byte.x30; Byte.x31; Byte.x32]
  | _ => [Byte.xff]
  end.

Definition four_frames_out_of_order : list action :=
  [Submit 3 (four_payloads 3); Submit 1 (four_payloads 1); Writer;
   Submit 0 (four_payloads 0); Writer; Writer;
   Submit 2 (four_payloads 2)].

(** The renderer handing over the frames of [order] one after the other,
    the writer not getting a turn in between. *)
Definition submit_all (order : list (Z * image)) : list action :=
  map (fun f : Z * image => Submit f.1 f.2) order.

(** The pipe of the four-frame run with a bound of two frames, after
    frames 3 and 1 went in. *)
Definition two_of_four_buffered : FFmpegWrapper :=
  {| images_to_pipe := {[ 3%Z := four_payloads 3; 1%Z := four_payloads 1 ]};
     stop_piping := false;
     lock_writing := false;
     max_images_on_pipe_buffer := 2;
     count := 0;
     stdin := [];
     stdin_closed := false;
     writer := InLoop |}.

(** The pipe with frame 1 waiting in the buffer and room for more. *)
Definition frame_one_buffered : FFmpegWrapper :=
  {| images_to_pipe := {[ 1%Z := [Byte.x01] ]};
     stop_piping := false;
     lock_writing := false;
     max_images_on_pipe_buffer := 5;
     count := 0;
     stdin := [];
     stdin_closed := false;
     writer := InLoop |}.

End FramePipe.

(** * The value interpolator of [run_shaders.py] *)

Module Interpolator.

(** What is fed to [next] or stored as a target: a Python number or a
    one-dimensional numpy array. *)
Inductive value : Type :=
| Scalar (x : Qc)
| Array (xs : list Qc).

(** One entry of [self.interpolaters]: the dictionary with the keys
    ["current"], ["target"] and ["ratios"]. *)
Record interpolater : Type := mkInterpolater {
  current : list Qc;
  target : value;
  ratios : list Qc;
}.

(** numpy's elementwise operation on two one-dimensional arrays: equal
    lengths pair up, a one-element array is stretched, anything else does
    not broadcast. *)
Definition broadcast (f : Qc -> Qc -> Qc) (a b : list Qc) : result (list Qc) :=
  if decide (length a = length b) then Return (zip_with f a b)
  else match a, b with
       | [x], _ => Return (map (f x) b)
       | _, [y] => Return (map (fun x => f x y) a)
       | _, _ => Raise "ValueError"
       end.

(** The same with a left operand that may be a plain number. *)
Definition broadcast_value (f : Qc -> Qc -> Qc) (v : value) (b : list Qc)
  : result (list Qc) :=
  match v with
  | Scalar x => Return (map (f x) b)
  | Array a => broadcast f a b
  end.



(** [self.interpolaters[name]] *)
Definition getitem_interpolater (interpolaters : gmap string interpolater) (name : string)
  : result interpolater :=
  match interpolaters !! name with
  | Some it => Return it
  | None => Raise "KeyError"
  end.

(** The argument of [ndarray.fill]: a number, or an array holding one. *)
Definition fill_value (feed : value) : result Qc :=
  match feed with
  | Scalar x => Return x
  | Array [x] => Return x
  | Array _ => Raise "ValueError"
  end.

(** [target += feed]: in place on an array (the feed must broadcast to the
    target's shape), a fresh value when the target is a plain number. *)
Definition iadd (tgt feed : value) : result value :=
  match tgt, feed with
  | Array t, Scalar x => Return (Array (map (fun a => (a + x)%Qc) t))
  | Array t, Array f =>
      if decide (length f = length t) then Return (Array (zip_with Qcplus t f))
      else match f with
           | [y] => Return (Array (map (fun a => (a + y)%Qc) t))
           | _ => Raise "ValueError"
           end
  | Scalar a, Scalar x => Return (Scalar (a + x)%Qc)
  | Scalar a, Array f => Return (Array (map (Qcplus a) f))
  end.

Definition set_target (it : interpolater) (t : value) : interpolater :=
  {| current := current it; target := t; ratios := ratios it |}.

Definition set_current (it : interpolater) (c : list Qc) : interpolater :=
  {| current := c; target := target it; ratios := ratios it |}.

(** [next(name, feed, mode = "fill")]: the three [if mode == ...] updates of
    the target, then
    [current = current + ((target - current) * ratios)].
    An exception ends the run of the caller, so the state it leaves behind
    is not returned. *)
Definition next (interpolaters : gmap string interpolater)
    (name : string) (feed : value) (mode : string)
  : result (gmap string interpolater) :=
  s1 ← (if decide (mode = "fill") then
          it ← getitem_interpolater interpolaters name;
          match target it with
          | Array t =>
              x ← fill_value feed;
              Return (<[name := set_target it (Array (map (fun _ => x) t))]> interpolaters)
          | Scalar _ => Raise "AttributeError"
          end
        else Return interpolaters);
  s2 ← (if decide (mode = "replace") then
          it ← getitem_interpolater s1 name;
          Return (<[name := set_target it feed]> s1)
        else Return s1);
  s3 ← (if decide (mode = "add") then
          it ← getitem_interpolater s2 name;
          t ← iadd (target it) feed;
          Return (<[name := set_target it t]> s2)
        else Return s2);
  sc ← getitem_interpolater s3 name;
  difference ← broadcast_value Qcminus (target sc) (current sc);
  scaled ← broadcast Qcmult difference (ratios sc);
  interpolated ← broadcast Qcplus (current sc) scaled;
  Return (<[name := set_current sc interpolated]> s3).

(** A sequence of [next] calls, as the main loop makes them frame after
    frame. *)
Fixpoint nexts (interpolaters : gmap string interpolater)
    (calls : list (string * value * string))
  : result (gmap string interpolater) :=
  match calls with
  | [] => Return interpolaters
  | (name, feed, mode) :: calls' =>
      s ← next interpolaters name feed mode; nexts s calls'
  end.










End Interpolator.

(** * Python sequences *)

(** [l[i]] for a non-negative index. *)
Definition getitem {A : Type} (l : list A) (i : nat) : result A :=
  match l !! i with
  | Some x => Return x
  | None => Raise "IndexError"
  end.

(** [l[start:stop]]: negative bounds count from the end, all bounds are
    clamped to the sequence. *)
Definition py_slice {A : Type} (l : list A) (start stop : Z) : list A :=
  let n := Z.of_nat (length l) in
  let clamp := fun i : Z => if (i <? 0)%Z then Z.max (i + n) 0 else Z.min i n in
  let lo := clamp start in
  let hi := clamp stop in
  take (Z.to_nat (hi - lo)) (drop (Z.to_nat lo) l).



(** * Audio analysis: [AudioProcessing] of [cmn_audio.py] *)

Module Audio.

(** A numpy float that may be [nan]. *)
Inductive npfloat : Type :=
| Num (q : Qc)
| NaN.

Global Instance npfloat_eq_dec : EqDecision npfloat.
Proof. solve_decision. Defined.

Definition np_add (a b : npfloat) : npfloat :=
  match a, b with
  | Num x, Num y => Num (x + y)%Qc
  | _, _ => NaN
  end.

Definition np_div (a : npfloat) (d : Qc) : npfloat :=
  match a with
  | Num x => Num (x / d)%Qc
  | NaN => NaN
  end.

(** [sum(values)]: Python starts from 0 and adds from the left. *)
Definition py_sum (values : list npfloat) : npfloat :=
  fold_left np_add values (Num 0%Qc).

(** [np.abs] *)
Definition np_abs (a : list Qc) : list Qc := map Qcabs a.

(** [np.median]: the middle of the sorted array, the mean of the two middle
    values for an even length, [nan] for an empty array. *)
Definition np_median (a : list Qc) : npfloat :=
  let sorted := merge_sort Qcle a in
  let n := length sorted in
  match n with
  | 0 => NaN
  | _ =>
      if Nat.even n then
        Num ((nth (n / 2 - 1) sorted 0%Qc + nth (n / 2) sorted 0%Qc)
             / 2)%Qc
      else Num (nth (n / 2) sorted 0%Qc)
  end.

(** How many entries of [a] are at most, or at least, [m]. *)
Definition count_le (m : Qc) (a : list Qc) : nat :=
  length (filter (fun x => (x <= m)%Qc) a).

Definition count_ge (m : Qc) (a : list Qc) : nat :=
  length (filter (fun x => (m <= x)%Qc) a).

(** [np.mean] *)
Definition np_mean (a : list Qc) : npfloat :=
  match a with
  | [] => NaN
  | _ => Num (fold_left Qcplus a 0%Qc / Qc_of_Z (Z.of_nat (length a)))%Qc
  end.

(** The integer nearest to [q], ties to the even one. *)
Definition round_half_even (q : Qc) : Z :=
  let n := Qnum q in
  let d := Zpos (Qden q) in
  let f := (n / d)%Z in
  let twice_rest := (2 * (n mod d))%Z in
  if (twice_rest <? d)%Z then f
  else if (d <? twice_rest)%Z then (f + 1)%Z
  else if Z.even f then f else (f + 1)%Z.

(** [round(value, ndigits)] *)
Definition py_round (value : npfloat) (ndigits : nat) : npfloat :=
  match value with
  | Num q =>
      let scale := (10 ^ Z.of_nat ndigits)%Z in
      Num (Q2Qc (Qmake (round_half_even (q * Qc_of_Z scale)%Qc) (Z.to_pos scale)))
  | NaN => NaN
  end.

(** One entry of the configuration: [sample_rate], [start_freq],
    [end_freq]. *)
Record band : Type := mkBand {
  sample_rate : Z;
  start_freq : Qc;
  end_freq : Qc;
}.

(** The attributes of [AudioProcessing] the analysis reads.  [config] is
    [None] until the caller sets it; as a dictionary it is iterated in
    insertion order. *)
Record AudioProcessing : Type := mkAudioProcessing {
  config : option (list (string * band));
  piano_keys_frequencies : list Qc;
}.

(** [[round(self.get_frequency_of_key(x), 2) for x in range(-50, 68)]]:
    the equal-tempered notes around A4 = 440 Hz, in hundredths of a hertz. *)
Definition piano_keys_hundredths : list Z :=
  [2450; 2596; 2750; 2914; 3087; 3270; 3465; 3671; 3889; 4120; 4365; 4625;
   4900; 5191; 5500; 5827; 6174; 6541; 6930; 7342; 7778; 8241; 8731; 9250;
   9800; 10383; 11000; 11654; 12347; 13081; 13859; 14683; 15556; 16481; 17461;
   18500; 19600; 20765; 22000; 23308; 24694; 26163; 27718; 29366; 31113; 32963;
   34923; 36999; 39200; 41530; 44000; 46616; 49388; 52325; 55437; 58733; 62225;
   65926; 69846; 73999; 78399; 83061; 88000; 93233; 98777; 104650; 110873;
   117466; 124451; 131851; 139691; 147998; 156798; 166122; 176000; 186466;
   197553; 209300; 221746; 234932; 248902; 263702; 279383; 295996; 313596;
   332244; 352000; 372931; 395107; 418601; 443492; 469864; 497803; 527404;
   558765; 591991; 627193; 664488; 704000; 745862; 790213; 837202; 886984;
   939727; 995606; 1054808; 1117530; 1183982; 1254385; 1328975; 1408000;
   1491724; 1580427; 1674404; 1773969; 1879455; 1991213; 2109616]%Z.

(** [AudioProcessing.__init__]: no configuration yet, the table of notes. *)
Definition init : AudioProcessing :=
  {| config := None;
     piano_keys_frequencies := map (fun c : Z => Q2Qc (Qmake c 100)) piano_keys_hundredths |}.

(** Modelled from the spec: [DataUtils.list_items_in_between], which
    [cmn_utils.py] does not hold in these sources; the spec has it keep
    "every note frequency inside [start_freq, end_freq]", in table order. *)
Definition list_items_in_between (items : list Qc) (start stop : Qc) : list Qc :=
  filter (fun x => (start <= x)%Qc /\ (x <= stop)%Qc) items.

(** [ndarray.argmin()]: the first index of the least value. *)
Fixpoint argmin_from (l : list Qc) (i best_i : nat) (best : Qc) : nat :=
  match l with
  | [] => best_i
  | x :: l' =>
      if decide (x < best)%Qc then argmin_from l' (S i) i x
      else argmin_from l' (S i) best_i best
  end.

Definition np_argmin (l : list Qc) : result nat :=
  match l with
  | [] => Raise "ValueError"
  | x :: l' => Return (argmin_from l' 1 0 x)
  end.

(** [find_nearest(array, value)]: index and value of the entry of [array]
    nearest to [value]. *)
Definition find_nearest (array : list Qc) (value : Qc) : result (nat * Qc) :=
  index ← np_argmin (map (fun a => Qcabs (a - value)) array);
  found ← getitem array index;
  Return (index, found).

(** What the generator [get_info_on_audio_slice] yields: a tuple of floats
    or a float32 array, under a key. *)
Inductive info_value : Type :=
| Tuple (values : list npfloat)
| NdArray (values : list Qc).

Global Instance info_value_eq_dec : EqDecision info_value.
Proof. solve_decision. Defined.

(** A generator run to its end: the items it yielded, and the exception
    that ended it, if one did. *)
Record generated : Type := mkGenerated {
  yields : list (string * info_value);
  raised : option string;
}.

(** [self.info[key]] after the consumer stored every yielded item. *)
Definition info (g : generated) (key : string) : option info_value :=
  (fun found => snd (snd found)) <$> list_find (fun item => fst item = key) (yields g).

(** [(audio_slice[0] + audio_slice[1]) / 2], the mono signal. *)
Definition mono_of (channel0 channel1 : list Qc) : list Qc :=
  zip_with (fun l r => ((l + r) / 2)%Qc) channel0 channel1.

Section Externals.

(** Code the analysis calls that lies outside these sources: [np.std],
    [samplerate.resample(data, ratio, 'sinc_best')],
    [Fourier.binned_fft(data, sample_rate, original_sample_rate)], which
    returns the bin frequencies and the bin values, and
    [Functions.value_on_line_of_two_points(Xa, Ya, Xb, Yb, get_x)]. *)
Variable np_std : list Qc -> npfloat.
Variable samplerate_resample : list Qc -> Qc -> list Qc.
Variable binned_fft : list Qc -> Z -> Z -> list Qc * list Qc.
Variable value_on_line_of_two_points : Qc -> Qc -> Qc -> Qc -> Qc -> Qc.

(** [resample(data, original_sample_rate, new_sample_rate)] *)
Definition resample (data : list Qc) (original_sample_rate new_sample_rate : Z)
  : result (list Qc) :=
  if decide (new_sample_rate = original_sample_rate) then Return data
  else if decide (original_sample_rate = 0%Z) then Raise "ZeroDivisionError"
  else Return (samplerate_resample data
                 (Qc_of_Z new_sample_rate / Qc_of_Z original_sample_rate)%Qc).

(** The loop [for freq in wanted_freqs], appending to [processed]. *)
Fixpoint for_wanted_freqs (binned : list Qc * list Qc) (wanted_freqs : list Qc)
    (processed : list Qc) : result (list Qc) :=
  match wanted_freqs with
  | [] => Return processed
  | freq :: rest =>
      nearest ← find_nearest (fst binned) freq;
      value ← getitem (snd binned) (fst nearest);
      let flatten_scalar :=
        value_on_line_of_two_points
          (Qc_of_Z 20) (Q2Qc (Qmake 2 10)) (Qc_of_Z 20000) (Qc_of_Z 62)
          (Qc_of_Z (Z.of_nat (fst nearest))) in
      for_wanted_freqs binned rest
        (processed ++ [(Qcabs value * flatten_scalar * Qc_of_Z 6)%Qc])
  end.

(** The body of the loop over the configuration, for one channel and one
    band. *)
Definition for_band (self : AudioProcessing) (data : list Qc)
    (original_sample_rate : Z) (value : band) (processed : list Qc)
  : result (list Qc) :=
  let wanted_freqs :=
    list_items_in_between (piano_keys_frequencies self)
      (start_freq value) (end_freq value) in
  resampled ← resample data original_sample_rate (sample_rate value);
  let binned := binned_fft resampled (sample_rate value) original_sample_rate in
  for_wanted_freqs binned wanted_freqs processed.

(** The loop [for _, value in self.config.items()]. *)
Fixpoint for_config (self : AudioProcessing) (data : list Qc)
    (original_sample_rate : Z) (items : list (string * band))
    (processed : list Qc) : result (list Qc) :=
  match items with
  | [] => Return processed
  | (_, value) :: rest =>
      processed' ← for_band self data original_sample_rate value processed;
      for_config self data original_sample_rate rest processed'
  end.

(** [self.config.items()] *)
Definition config_items (self : AudioProcessing) : result (list (string * band)) :=
  match config self with
  | Some items => Return items
  | None => Raise "AttributeError"
  end.

(** The loop [for data in audio_slice]. *)
Fixpoint for_audio_slice (self : AudioProcessing) (channels : list (list Qc))
    (original_sample_rate : Z) (processed : list Qc) : result (list Qc) :=
  match channels with
  | [] => Return processed
  | data :: rest =>
      items ← config_items self;
      processed' ← for_config self data original_sample_rate items processed;
      for_audio_slice self rest original_sample_rate processed'
  end.

(** [get_info_on_audio_slice(audio_slice, original_sample_rate)], run to
    its end.  [audio_slice] is a two-dimensional array, given by its rows,
    which have one length. *)
Definition get_info_on_audio_slice (self : AudioProcessing)
    (audio_slice : list (list Qc)) (original_sample_rate : Z) : generated :=
  match (channel0 ← getitem audio_slice 0;
         channel1 ← getitem audio_slice 1;
         Return (channel0, channel1)) with
  | Raise e => {| yields := []; raised := Some e |}
  | Return (channel0, channel1) =>
      let mono := mono_of channel0 channel1 in
      let average_amplitudes :=
        [np_median (np_abs channel0); np_median (np_abs channel1)] in
      let average_amplitudes :=
        average_amplitudes ++ [np_div (py_sum average_amplitudes) 2%Qc] in
      let first :=
        ("average_amplitudes",
         Tuple (map (fun value => py_round value 8) average_amplitudes)) in
      let second :=
        ("standard_deviations",
         Tuple [np_std channel0; np_std channel1; np_std mono]) in
      match for_audio_slice self audio_slice original_sample_rate [] with
      | Return processed =>
          {| yields := [first; second; ("fft", NdArray processed)];
             raised := None |}
      | Raise e => {| yields := [first; second]; raised := Some e |}
      end
  end.

(** The band can be analysed on the channel: the resampling goes through
    and the binned FFT comes back with at least one bin and a value for
    every bin frequency. *)
Definition bins_present (original_sample_rate : Z) (data : list Qc)
    (value : band) : Prop :=
  exists resampled : list Qc,
    resample data original_sample_rate (sample_rate value) = Return resampled /\
    (binned_fft resampled (sample_rate value) original_sample_rate).1 <> [] /\
    length (binned_fft resampled (sample_rate value) original_sample_rate).1
    <= length (binned_fft resampled (sample_rate value) original_sample_rate).2.

(** What one band adds to [processed] for one channel. *)
Definition band_magnitudes (self : AudioProcessing) (data : list Qc)
    (original_sample_rate : Z) (value : band) : result (list Qc) :=
  for_band self data original_sample_rate value [].

(** The [fft] sequence grouped by channel, and by band inside a channel:
    all bands of the first channel, then all bands of the second, ... *)
Definition channel_major (self : AudioProcessing) (channels : list (list Qc))
    (original_sample_rate : Z) : result (list Qc) :=
  groups ← traverse
    (fun data =>
       items ← config_items self;
       per_band ← traverse
         (fun item : string * band =>
            band_magnitudes self data original_sample_rate item.2) items;
       Return (concat per_band))
    channels;
  Return (concat groups).

(** The grouping the spec words: by band in declaration order, and by
    channel inside a band: all channels of the first band, then all channels
    of the second, ... *)
Definition band_major (self : AudioProcessing) (channels : list (list Qc))
    (original_sample_rate : Z) : result (list Qc) :=
  items ← config_items self;
  groups ← traverse
    (fun item : string * band =>
       per_channel ← traverse
         (fun data => band_magnitudes self data original_sample_rate item.2)
         channels;
       Return (concat per_channel))
    items;
  Return (concat groups).

End Externals.


(** The number of table notes inside the bands, summed over the bands. *)
Definition wanted_count (self : AudioProcessing) (items : list (string * band))
  : nat :=
  sum_list_with
    (fun item : string * band =>
       length (list_items_in_between (piano_keys_frequencies self)
                 (start_freq item.2) (end_freq item.2)))
    items.

(** [row[0:len(source)] = source] on a numpy row: the source must have the
    length of the slice it lands on, or hold one value to be repeated. *)
Definition assign_prefix (row source : list Qc) : result (list Qc) :=
  let k := length source in
  if decide (k <= length row) then Return (source ++ drop k row)
  else match source with
       | [x] => Return (map (fun _ => x) row)
       | _ => Raise "ValueError"
       end.

(** [slice_audio(stereo_data, mono_data, sample_rate, start_cut, end_cut,
    batch_size)]: the new [self.audio_slice] and [self.average_value]. *)
Definition slice_audio (stereo_data : list (list Qc)) (mono_data : list Qc)
    (sample_rate start_cut end_cut : Z) (batch_size : option Z)
  : result (list (list Qc) * npfloat) :=
  channel0 ← getitem stereo_data 0;
  let left_slice := py_slice channel0 start_cut end_cut in
  channel1 ← getitem stereo_data 1;
  let right_slice := py_slice channel1 start_cut end_cut in
  audio_slice ←
    match batch_size with
    | Some size =>
        if (size <? 0)%Z then Raise "ValueError"
        else
          let zeros := replicate (Z.to_nat size) 0%Qc in
          row0 ← assign_prefix zeros left_slice;
          row1 ← assign_prefix zeros right_slice;
          Return [row0; row1; zeros]
    | None => Return [left_slice; right_slice]
    end;
  Return (audio_slice, np_mean (np_abs (py_slice mono_data start_cut end_cut))).

End Audio.

(** * The audio slicing of [MMVSkiaCore.run] *)

Module SkiaCore.

(** [self.mmvskia_main.audio]: the decoded file. *)
Record AudioFile : Type := mkAudioFile {
  stereo_data : list (list Qc);
  mono_data : list Qc;
  sample_rate : Z;
}.





(** The [size] samples of a channel from [start] on, as far as the channel
    goes, and the same filled up with zeros to [size] samples. *)
Definition window (start size : nat) (channel : list Qc) : list Qc :=
  take size (drop start channel).

Definition zero_padded (size : nat) (samples : list Qc) : list Qc :=
  samples ++ replicate (size - length samples) 0%Qc.





End SkiaCore.

(** * Stand-ins for the code outside these sources *)

(** Simple functions to run the analysis on concrete batches.  They stand
    for numpy's standard deviation, libsamplerate's resampler, the binned
    FFT and the line through two points; no theorem about the analysis
    depends on them. *)
Module StandIn.
Import Audio.

(** In place of [np.std]: [nan] on an empty array, as numpy has it, and the
    mean absolute value elsewhere. *)
Definition np_std (a : list Qc) : npfloat := np_mean (np_abs a).

(** In place of [samplerate.resample]: the data as they are. *)
Definition samplerate_resample (data : list Qc) (ratio : Qc) : list Qc := data.

(** In place of [Fourier.binned_fft]: as many bins as samples, bin [k] at
    the frequency [k * sample_rate / (2 * n)] and holding sample [k]. *)
Definition binned_fft (data : list Qc) (sample_rate original_sample_rate : Z)
  : list Qc * list Qc :=
  (map (fun k : nat =>
          (Qc_of_Z (Z.of_nat k) * Qc_of_Z sample_rate
           / Qc_of_Z (2 * Z.of_nat (length data)))%Qc)
       (seq 0 (length data)),
   data).

(** [Functions.value_on_line_of_two_points]: the line through
    [(Xa, Ya)] and [(Xb, Yb)], at [get_x]. *)
Definition value_on_line_of_two_points (Xa Ya Xb Yb get_x : Qc) : Qc :=
  (Ya + (Yb - Ya) / (Xb - Xa) * (get_x - Xa))%Qc.

Definition get_info_on_audio_slice :=
  Audio.get_info_on_audio_slice np_std samplerate_resample binned_fft
    value_on_line_of_two_points.

(** Two bands at 1 kHz around the notes 43.65 Hz and 110 Hz. *)
Definition two_bands : AudioProcessing :=
  {| config := Some [("bass", mkBand 1000 (Qc_of_Z 43) (Qc_of_Z 44));
                     ("mid", mkBand 1000 (Qc_of_Z 109) (Qc_of_Z 111))];
     piano_keys_frequencies := piano_keys_frequencies init |}.

(** A stereo batch of four samples per channel. *)
Definition four_samples : list (list Qc) :=
  [[Qc_of_Z 1; Qc_of_Z 2; Qc_of_Z 3; Qc_of_Z 4];
   [Qc_of_Z 5; Qc_of_Z 6; Qc_of_Z 7; Qc_of_Z 8]].

(** A stereo batch whose right channel mirrors the left one. *)
Definition out_of_phase : list (list Qc) :=
  [[Qc_of_Z 1; Qc_of_Z 2; Qc_of_Z 3; Qc_of_Z 4];
   [Qc_of_Z (-1); Qc_of_Z (-2); Qc_of_Z (-3); Qc_of_Z (-4)]].


End StandIn.

(** * Invariant of the frame pipe *)

Module FramePipeInvariant.
Import FramePipe.

(** Frames the writer has put on stdin: inside [close_pipe] the last frame
    is out while [count] still names it. *)
Definition frames_written (w : FFmpegWrapper) : nat :=
  Z.to_nat (count w) +
  match writer w with
  | InClosePipe => 1
  | InLoop | Exited => 0
  end.

(** What holds between any two steps of the threads when the writer was
    started for [n] frames and the indices in [indices], each below [n] and
    carrying its payload, have been submitted so far: stdin holds the first
    [frames_written] payloads in index order, the buffer holds exactly the
    submitted frames not yet written, every written frame had been
    submitted, and the writer has left its loop only after frame [n - 1]. *)
Definition pipe_inv (n : nat) (payload : Z -> image) (indices : list Z)
    (w : FFmpegWrapper) : Prop :=
  (0 <= count w)%Z /\
  frames_written w <= n /\
  lock_writing w = false /\
  stdin w = in_order payload (frames_written w) /\
  (forall i : Z,
      images_to_pipe w !! i =
      if decide (i ∈ indices /\ (Z.of_nat (frames_written w) <= i)%Z)
      then Some (payload i) else None) /\
  (forall j : Z, (0 <= j < Z.of_nat (frames_written w))%Z -> j ∈ indices) /\
  Forall (fun i : Z => (0 <= i < Z.of_nat n)%Z) indices /\
  (stop_piping w = true \/ writer w <> InLoop -> frames_written w = n).

End FramePipeInvariant.

(** * Python ranges *)

(** [range(n)] *)
Definition py_range (n : Z) : list Z := map Z.of_nat (seq 0 (Z.to_nat n)).

(** * The render loop of [MMVSkiaCore.run] on the frame pipe *)

Module RenderLoop.
Import FramePipe FramePipeInvariant.

(** Where the main thread stands in the part of [MMVSkiaCore.run] that
    feeds the pipe when [render_to_video] is on: in the turn for [step] of
    [for step in range(0, total_steps)], before its
    [write_to_pipe(global_frame_index, next_image)] has gone through; in
    the [close_pipe()] that follows the loop; or past it. *)
Inductive main_pc : Type :=
| Rendering (step : Z)
| ClosingPipe
| PipeClosed.

(** The wrapper [self.mmvskia_main.pipe_video_to], shared by the two
    threads, and the position of the main thread. *)
Record render : Type := mkRender {
  pipe_video_to : FFmpegWrapper;
  main : main_pc;
}.

(** [close_pipe()] called from the main thread: it sleeps while the buffer
    holds a frame or [lock_writing] is on, then sets [stop_piping].
    [None] stands for a call that is still sleeping. *)
Definition close_pipe (w : FFmpegWrapper) : option FFmpegWrapper :=
  if bool_decide (images_to_pipe w = ∅) && negb (lock_writing w) then
    Some {| images_to_pipe := images_to_pipe w;
            stop_piping := true;
            lock_writing := lock_writing w;
            max_images_on_pipe_buffer := max_images_on_pipe_buffer w;
            count := count w;
            stdin := stdin w;
            stdin_closed := stdin_closed w;
            writer := writer w |}
  else None.

(** One step of the main thread; [next_image step] is the canvas array
    rendered in the turn for [step].  A call that sleeps leaves the state
    as it is. *)
Definition main_step (total_steps : Z) (next_image : Z -> image) (r : render)
  : render :=
  match main r with
  | Rendering step =>
      if (step <? total_steps)%Z then
        match write_to_pipe (pipe_video_to r) step (next_image step) with
        | Some (Return w) =>
            {| pipe_video_to := w; main := Rendering (step + 1) |}
        | Some (Raise _) | None => r
        end
      else {| pipe_video_to := pipe_video_to r; main := ClosingPipe |}
  | ClosingPipe =>
      match close_pipe (pipe_video_to r) with
      | Some w => {| pipe_video_to := w; main := PipeClosed |}
      | None => r
      end
  | PipeClosed => r
  end.

(** One polling step of the thread [pipe_writer_loop_thread], started with
    [frame_count = total_steps]. *)
Definition writer_step (total_steps : Z) (r : render) : render :=
  {| pipe_video_to := pipe_writer_iteration total_steps (pipe_video_to r);
     main := main r |}.

Inductive thread : Type :=
| MainThread
| WriterThread.

Definition turn (total_steps : Z) (next_image : Z -> image) (r : render)
    (t : thread) : render :=
  match t with
  | MainThread => main_step total_steps next_image r
  | WriterThread => writer_step total_steps r
  end.

(** The two threads taking turns as [turns] says. *)
Definition run_threads (total_steps : Z) (next_image : Z -> image)
    (turns : list thread) (r : render) : render :=
  fold_left (turn total_steps next_image) turns r.

(** Both threads at their start: the writer past the first two lines of
    [pipe_writer_loop], the main thread before the first turn of its
    loop. *)
Definition render_start (max_images : Z) : render :=
  {| pipe_video_to := pipe_writer_start max_images; main := Rendering 0 |}.

(** The threads strictly alternating, the main thread first. *)
Definition alternating (rounds : nat) : list thread :=
  concat (replicate rounds [MainThread; WriterThread]).

(** Both threads are through: the main thread past [close_pipe()] and the
    writer past [self.subprocess.stdin.close()]. *)
Definition finished (r : render) : Prop :=
  main r = PipeClosed /\ writer (pipe_video_to r) = Exited /\
  stdin_closed (pipe_video_to r) = true.

(** How many frames the main thread has handed over. *)
Definition handed_over (n : nat) (pc : main_pc) : nat :=
  match pc with
  | Rendering step => Z.to_nat step
  | ClosingPipe | PipeClosed => n
  end.

(** What holds between any two steps of a render of [n] frames: the pipe
    invariant for the frames handed over so far, the loop counter within
    its range, [stop_piping] set once the main thread is past
    [close_pipe()], and stdin closed by the writer on its way out only. *)
Definition render_inv (n : nat) (next_image : Z -> image) (r : render) : Prop :=
  pipe_inv n next_image (Z.of_nat <$> seq 0 (handed_over n (main r)))
    (pipe_video_to r) /\
  match main r with
  | Rendering step => (0 <= step <= Z.of_nat n)%Z
  | ClosingPipe => True
  | PipeClosed => stop_piping (pipe_video_to r) = true
  end /\
  (stdin_closed (pipe_video_to r) = true -> writer (pipe_video_to r) = Exited) /\
  (writer (pipe_video_to r) = Exited ->
   stdin_closed (pipe_video_to r) = true /\ stop_piping (pipe_video_to r) = true).

(** An upper bound on the steps that are still to change the state. *)
Definition steps_left (n : nat) (r : render) : nat :=
  match main r with
  | Rendering step => n - Z.to_nat step + 2
  | ClosingPipe => 1
  | PipeClosed => 0
  end +
  match writer (pipe_video_to r) with
  | InLoop =>
      if stop_piping (pipe_video_to r) then 1
      else n - Z.to_nat (count (pipe_video_to r)) + 2
  | InClosePipe => 2
  | Exited => 0
  end.

End RenderLoop.

(** * Runs of the value interpolator *)

Module InterpolatorRuns.
Import Interpolator.





(** A channel with two entries that follows its target at the ratios
    1/4 and 1/2. *)
Definition slow_channel : gmap string interpolater :=
  {[ "mmv_fft" := {| current := [Qc_of_Z 8; Qc_of_Z (-4)];
                     target := Array [0%Qc; 0%Qc];
                     ratios := [Q2Qc (Qmake 1 4); Q2Qc (Qmake 1 2)] |} ]}.

End InterpolatorRuns.

(** * Reading the audio file: [AudioFile.read] of [cmn_audio.py] *)

Module AudioFileRead.

(** What [soundfile.read] and [audio2numpy.open_audio] hand back as the
    data, and what [.T] makes of it: a one-dimensional array of samples
    (a file with one channel), or a two-dimensional array, given by its
    rows, each [columns] long; its shape is [(len(rows), columns)]. *)
Inductive ndarray : Type :=
| Array1 (samples : list Qc)
| Array2 (columns : nat) (rows : list (list Qc)).

(** Column [j] of the rows. *)
Definition column (j : nat) (rows : list (list Qc)) : list Qc :=
  map (fun row : list Qc => nth j row 0%Qc) rows.

(** [a.T]: a one-dimensional array is its own transpose. *)
Definition T (a : ndarray) : ndarray :=
  match a with
  | Array1 samples => Array1 samples
  | Array2 columns rows =>
      Array2 (length rows) (map (fun j : nat => column j rows) (seq 0 columns))
  end.

(** The [try] ... [except RuntimeError] at the top of [read]: the outcome
    of [soundfile.read(path)], or that of [audio2numpy.open_audio(path)]
    when the first raised a [RuntimeError]. *)
Definition decoded (soundfile_read audio2numpy_open_audio : result (ndarray * Z))
  : result (ndarray * Z) :=
  match soundfile_read with
  | Return r => Return r
  | Raise e =>
      if decide (e = "RuntimeError") then audio2numpy_open_audio else Raise e
  end.

(** [frames / sample_rate] on two Python integers. *)
Definition true_divide (frames : nat) (sample_rate : Z) : result Qc :=
  if decide (sample_rate = 0%Z) then Raise "ZeroDivisionError"
  else Return (Qc_of_Z (Z.of_nat frames) / Qc_of_Z sample_rate)%Qc.

(** [read(path)], given what the two decoders make of the path: the
    attributes the slicing reads, [self.duration] and [self.channels].
    On a one-dimensional array [self.stereo_data.shape[1]] is out of
    range. *)
Definition read (soundfile_read audio2numpy_open_audio : result (ndarray * Z))
  : result (SkiaCore.AudioFile * Qc * nat) :=
  r ← decoded soundfile_read audio2numpy_open_audio;
  let sample_rate := r.2 in
  match T r.1 with
  | Array1 _ => Raise "IndexError"
  | Array2 frames stereo_data =>
      duration ← true_divide frames sample_rate;
      let channels := length stereo_data in
      channel0 ← getitem stereo_data 0;
      channel1 ← getitem stereo_data 1;
      let mono_data := Audio.mono_of channel0 channel1 in
      Return ({| SkiaCore.stereo_data := stereo_data;
                 SkiaCore.mono_data := mono_data;
                 SkiaCore.sample_rate := sample_rate |},
              duration, channels)
  end.


(** The file has one channel only, or none. *)
Definition fewer_than_two_channels (data : ndarray) : Prop :=
  match data with
  | Array1 _ => True
  | Array2 columns _ => columns < 2
  end.




End AudioFileRead.

(** * The older analysis: [AudioProcessing.process] of [cmn_audio.py] *)

Module AudioProcess.
Import Audio.

(** The dictionary [processed]: frequencies to FFT values, in insertion
    order. *)
Definition dict : Type := list (Qc * Qc).

(** [d[key] = value]: a key the dictionary holds keeps its place and takes
    the new value, a new key goes to the end. *)
Fixpoint setitem (d : dict) (key value : Qc) : dict :=
  match d with
  | [] => [(key, value)]
  | (k, v) :: d' =>
      if decide (k = key) then (k, value) :: d'
      else (k, v) :: setitem d' key value
  end.

(** The attributes of [AudioProcessing] that [process] reads. *)
Record self_process : Type := mkSelfProcess {
  processing : AudioProcessing;
  where_decay_less_than_one : Qc;
  value_at_zero : Qc;
}.

Section Externals.

(** Code outside these sources: [samplerate.resample], [Fourier.binned_fft]
    and [Functions.how_much_bars_on_this_frequency(x,
    where_decay_less_than_one, value_at_zero)]. *)
Variable samplerate_resample : list Qc -> Qc -> list Qc.
Variable binned_fft : list Qc -> Z -> Z -> list Qc * list Qc.
Variable how_much_bars_on_this_frequency : Qc -> Qc -> Qc -> Qc.

(** The loop [for i in range(N)]: the bars repeated at this frequency. *)
Definition for_range (nearest_freq value : Qc) (N : Z) (processed : dict) : dict :=
  fold_left
    (fun (d : dict) (i : Z) =>
       setitem d (nearest_freq + Qc_of_Z i / Qc_of_Z 10)%Qc value)
    (py_range N) processed.

(** The loop [for freq in wanted_freqs]. *)
Fixpoint bars_for_wanted_freqs (self : self_process) (binned : list Qc * list Qc)
    (wanted_freqs : list Qc) (processed : dict) : result dict :=
  match wanted_freqs with
  | [] => Return processed
  | freq :: rest =>
      nearest ← find_nearest (fst binned) freq;
      value ← getitem (snd binned) (fst nearest);
      let N :=
        Qceiling (how_much_bars_on_this_frequency freq
                    (where_decay_less_than_one self) (value_at_zero self)) in
      bars_for_wanted_freqs self binned rest
        (for_range (snd nearest) value N processed)
  end.

(** The body of the loop over the configuration, for one band. *)
Definition bars_for_band (self : self_process) (data : list Qc)
    (original_sample_rate : Z) (value : band) (processed : dict)
  : result dict :=
  let wanted_freqs :=
    list_items_in_between (piano_keys_frequencies (processing self))
      (start_freq value) (end_freq value) in
  resampled ← resample samplerate_resample data original_sample_rate
                (sample_rate value);
  let binned := binned_fft resampled (sample_rate value) original_sample_rate in
  bars_for_wanted_freqs self binned wanted_freqs processed.

(** The loop [for _, value in self.config.items()]. *)
Fixpoint bars_for_config (self : self_process) (data : list Qc)
    (original_sample_rate : Z) (items : list (string * band))
    (processed : dict) : result dict :=
  match items with
  | [] => Return processed
  | (_, value) :: rest =>
      processed' ← bars_for_band self data original_sample_rate value processed;
      bars_for_config self data original_sample_rate rest processed'
  end.

(** [process(data, original_sample_rate)]: the list
    [[linear_processed_fft, frequencies]], as a pair. *)
Definition process (self : self_process) (data : list Qc)
    (original_sample_rate : Z) : result (list Qc * list Qc) :=
  items ← config_items (processing self);
  processed ← bars_for_config self data original_sample_rate items [];
  Return (processed.*2, processed.*1).

(** [frequency] is a bin frequency of the binned FFT of one of the bands
    of the configuration, moved up by a whole number of tenths. *)
Definition bin_plus_tenths (self : self_process) (data : list Qc)
    (original_sample_rate : Z) (frequency : Qc) : Prop :=
  exists (items : list (string * band)) (item : string * band)
         (resampled : list Qc) (bin : Qc) (i : Z),
    config (processing self) = Some items /\
    item ∈ items /\
    resample samplerate_resample data original_sample_rate (sample_rate item.2)
      = Return resampled /\
    bin ∈ (binned_fft resampled (sample_rate item.2) original_sample_rate).1 /\
    (0 <= i)%Z /\
    frequency = (bin + Qc_of_Z i / Qc_of_Z 10)%Qc.

End Externals.

(** In place of [Functions.how_much_bars_on_this_frequency]: a bar and a
    half at every frequency, which [math.ceil] makes two. *)
Definition a_bar_and_a_half (x where_decay_less_than_one value_at_zero : Qc)
  : Qc := Q2Qc (Qmake 3 2).

(** The two bands of [StandIn.two_bands] with the attributes
    [AudioProcessing.__init__] sets. *)
Definition two_bands_process : self_process :=
  {| processing := StandIn.two_bands;
     where_decay_less_than_one := Qc_of_Z 440;
     value_at_zero := Qc_of_Z 5 |}.

End AudioProcess.

(** * Capturing audio: [AudioSourceRealtime] of [cmn_audio.py] *)

Module AudioSourceRealtime.
Import AudioFileRead.

(** A recording device of [soundcard]: its name and whether it monitors
    an output. *)
Record device : Type := mkDevice {
  name : string;
  isloopback : bool;
}.

Global Instance device_eq_dec : EqDecision device.
Proof. solve_decision. Defined.

(** [init(recorder_device = None, search_for_loopback = False)], given the
    devices [soundcard.all_microphones(include_loopback = True)] lists and
    the attribute [self.recorder] as the call finds it ([None] when the
    object has no such attribute yet, [Some None] when it holds Python's
    [None]); the outcome is the new [self.recorder]. *)
Definition realtime_init (all_microphones : list device)
    (recorder : option (option device))
    (recorder_device : option device) (search_for_loopback : bool)
  : result device :=
  let recorder :=
    if search_for_loopback && bool_decide (recorder_device = None) then
      (* the first device marked as loopback, if there is one *)
      match list_find (fun d : device => isloopback d = true) all_microphones with
      | Some found => Some (Some found.2)
      | None => recorder
      end
    else Some recorder_device in
  (* assert (self.recorder is not None) *)
  match recorder with
  | None => Raise "AttributeError"
  | Some None => Raise "AssertionError"
  | Some (Some d) => Return d
  end.

(** [np.roll(a, shift)] on one row: the entry at [i] moves to
    [(i + shift) mod len(a)]. *)
Definition np_roll (a : list Qc) (shift : Z) : list Qc :=
  match a with
  | [] => []
  | _ =>
      let n := length a in
      let k := Z.to_nat (shift mod Z.of_nat n) in
      drop (n - k) a ++ take (n - k) a
  end.

(** [np.put(a, ind, v, mode = "wrap")] on one row: the value number
    [i mod len(v)] goes to the place [ind[i] mod len(a)]; nothing happens
    without values, and an empty row takes no value. *)
Definition np_put_wrap (a : list Qc) (ind : list Z) (v : list Qc)
  : result (list Qc) :=
  match v, a, ind with
  | [], _, _ => Return a
  | _, [], _ :: _ => Raise "IndexError"
  | _, _, _ =>
      Return
        (fold_left
           (fun (acc : list Qc) (place : nat * Z) =>
              <[Z.to_nat (place.2 mod Z.of_nat (length a)) :=
                  nth (place.1 mod length v) v 0%Qc]> acc)
           (imap pair ind) a)
  end.

(** The body of [for channel_number in [0, 1]]: the row fades by 0.95 and
    takes the new data. *)
Definition for_channel (batch_size : Z) (new_audio_data : list (list Qc))
    (channel_number : nat) (current_batch : list (list Qc))
  : result (list (list Qc)) :=
  old ← getitem current_batch channel_number;
  let faded := map (fun x : Qc => (x * Q2Qc (Qmake 95 100))%Qc) old in
  new ← getitem new_audio_data channel_number;
  row ← np_put_wrap faded (py_range batch_size) new;
  Return (<[channel_number := row]> current_batch).

(** The part of one turn of [capture_and_process_loop] that brings
    [self.current_batch] up to date, given what
    [source.record(numframes = ...)] hands back. *)
Definition refresh_batch (record : Z -> ndarray) (batch_size : Z)
    (recorder_numframes : option Z) (current_batch : list (list Qc))
  : result (list (list Qc)) :=
  numframes ← match recorder_numframes with
              | Some n => Return n
              | None => Raise "TypeError"   (* int(None) *)
              end;
  match T (record numframes) with
  | Array1 _ => Raise "IndexError"          (* new_audio_data.shape[1] *)
  | Array2 new_audio_data_len new_audio_data =>
      let rolled :=
        map (fun row : list Qc => np_roll row (- Z.of_nat new_audio_data_len))
          current_batch in
      batch ← for_channel batch_size new_audio_data 0 rolled;
      for_channel batch_size new_audio_data 1 batch
  end.

(** The new data repeated to fill a row of [size] samples. *)
Definition tiled (size : nat) (new : list Qc) : list Qc :=
  map (fun i : nat => nth (i mod length new) new 0%Qc) (seq 0 size).

(** A microphone, and the monitor of the speakers. *)
Definition microphone : device := {| name := "Built-in Microphone"; isloopback := false |}.
Definition monitor : device := {| name := "Monitor of Built-in Audio"; isloopback := true |}.

(** A recorder that hands back [numframes] frames of stereo, counting up
    on the left and down on the right. *)
Definition counting_recorder (numframes : Z) : ndarray :=
  Array2 2 (map (fun i : nat => [Qc_of_Z (Z.of_nat i); Qc_of_Z (- Z.of_nat i)])
              (seq 0 (Z.to_nat numframes))).

End AudioSourceRealtime.

(** * [Utils.is_matching_type] of [cmn_utils.py] *)

Module Utils.

Section IsMatchingType.

(** Python objects and types, with [isinstance(item, wanted_type)]. *)
Context {object type : Type}.
Variable isinstance : object -> type -> bool.

(** The loop [for wanted_index, wanted_type in enumerate(wanted)] for one
    item.  The enumeration walks the list by position, and
    [del wanted[wanted_index]] shortens the list under it.  The outcome is
    [false] when the loop ran into [return False], and the list as the
    loop leaves it; [steps] bounds the turns of the loop. *)
Fixpoint for_wanted (steps : nat) (item : object) (wanted_index : nat)
    (wanted : list type) : bool * list type :=
  match steps with
  | O => (true, wanted)
  | S steps' =>
      match wanted !! wanted_index with
      | None => (true, wanted)
      | Some wanted_type =>
          if isinstance item wanted_type then
            for_wanted steps' item (S wanted_index) (delete wanted_index wanted)
          else (false, wanted)
      end
  end.

(** The loop [for _, item in enumerate(items)]; a list of [n] entries is
    walked in [n] turns at most. *)
Fixpoint for_items (items : list object) (wanted : list type)
  : bool * list type :=
  match items with
  | [] => (true, wanted)
  | item :: rest =>
      let inner := for_wanted (length wanted) item 0 wanted in
      if inner.1 then for_items rest inner.2 else (false, inner.2)
  end.

(** [is_matching_type(items, wanted)]: what it returns, and the caller's
    list [wanted] as the call leaves it. *)
Definition is_matching_type (items : list object) (wanted : list type)
  : bool * list type :=
  for_items items wanted.

End IsMatchingType.

(** The entries at the places 0, 2, 4, ... of a list, and those at the
    places 1, 3, 5, ... *)
Fixpoint evens {A : Type} (l : list A) : list A :=
  match l with
  | [] => []
  | x :: l' =>
      x :: match l' with
           | [] => []
           | _ :: l'' => evens l''
           end
  end.

Definition odds {A : Type} (l : list A) : list A := evens (tail l).

(** Two classes, and objects that are instances of the class they
    name. *)
Inductive shape : Type :=
| Point
| Line.

Definition shape_isinstance (item wanted_type : shape) : bool :=
  match item, wanted_type with
  | Point, Point | Line, Line => true
  | _, _ => false
  end.

End Utils.

(** * Step functions: [Interpolation] of [interpolation.py] *)

Module Interpolation.


(** [remaining_approach(a, b, current, total, this_coord, arg_a)] *)
Definition remaining_approach (a b current total this_coord arg_a : Qc) : Qc :=
  let ratio := arg_a in
  if decide (current = 0%Qc) then a
  else (this_coord + ((b - this_coord) * ratio))%Qc.

End Interpolation.

(** * Decoding audio: [FFmpegWrapper.raw_audio_from_file] *)

Module RawAudio.
Import AudioSourceRealtime.

(** A byte string cut into groups of [n] bytes, the last of which may be
    shorter; [steps] bounds the number of groups. *)
Fixpoint groups {A : Type} (steps n : nat) (l : list A) : list (list A) :=
  match steps with
  | O => []
  | S steps' =>
      match l with
      | [] => []
      | _ :: _ => take n l :: groups steps' n (drop n l)
      end
  end.

(** [a.reshape((channels, -1), order = "F")] on a one-dimensional array:
    entry [j] of row [c] is entry [c + j * channels] of [a]. *)
Definition reshape_F (channels : nat) (a : list Qc) : result (list (list Qc)) :=
  if decide (channels = 0) then Raise "ValueError"
  else if decide (length a mod channels = 0) then
    Return (map (fun c : nat =>
                   map (fun j : nat => nth (c + j * channels) a 0%Qc)
                     (seq 0 (length a / channels)))
              (seq 0 channels))
  else Raise "ValueError".

(** [np.put(a, ind, v)] on one row, in the default mode ["raise"]: a place
    outside the row raises [IndexError], as does any place in an empty row;
    without values nothing is put; the values are repeated when they are
    fewer than the places. *)
Definition np_put (a : list Qc) (ind : list Z) (v : list Qc) : result (list Qc) :=
  match a, ind, v with
  | [], _ :: _, _ => Raise "IndexError"
  | _, _, [] => Return a
  | _, _, _ :: _ =>
      let n := Z.of_nat (length a) in
      if forallb (fun i : Z => (- n <=? i)%Z && (i <? n)%Z) ind then
        Return
          (fold_left
             (fun (acc : list Qc) (place : nat * Z) =>
                <[Z.to_nat (place.2 mod n) := nth (place.1 mod length v) v 0%Qc]> acc)
             (imap pair ind) a)
      else Raise "IndexError"
  end.

(** What the generator does until it is exhausted: the arrays it yielded,
    each as its consumer finds it at that moment, and the exception that
    ended it, if one did. *)
Record batches : Type := mkBatches {
  yields : list (list (list Qc));
  raised : option string;
}.

Section Decoder.

(** The float32 that four bytes of [pcm_f32le] stand for. *)
Variable float32 : list Byte.byte -> Qc.

(** [np.fromstring(data, dtype = np.float32)] *)
Definition np_fromstring (data : list Byte.byte) : result (list Qc) :=
  if decide (length data mod 4 = 0) then
    Return (map float32 (groups (length data) 4 data))
  else Raise "ValueError".

(** The loop [for channel in range(channels)] on the zero-filled
    [to_yield]. *)
Fixpoint for_channels (data : list (list Qc)) (columns : nat)
    (channel_numbers : list nat) (to_yield : list (list Qc))
  : result (list (list Qc)) :=
  match channel_numbers with
  | [] => Return to_yield
  | channel :: rest =>
      row ← getitem to_yield channel;
      values ← getitem data channel;
      row' ← np_put row (py_range (Z.of_nat columns)) values;
      for_channels data columns rest (<[channel := row']> to_yield)
  end.

(** One turn of [while True] on the bytes that [stdout.read] handed
    over, which are not empty: the array yielded. *)
Definition decode_batch (channels batch_size : nat) (data : list Byte.byte)
  : result (list (list Qc)) :=
  flat ← np_fromstring data;
  data ← reshape_F channels flat;
  let columns := length flat / channels in        (* data.shape[1] *)
  let to_yield := replicate channels (replicate batch_size 0%Qc) in
  for_channels data columns (seq 0 channels) to_yield.

(** The loop [while True]: [stdout.read(read_batch_size)] takes the next
    bytes of the stream, fewer only at its end. *)
Fixpoint read_loop (steps channels batch_size : nat) (stdout : list Byte.byte)
  : batches :=
  match steps with
  | O => {| yields := []; raised := None |}
  | S steps' =>
      let read_batch_size := 4 * channels * batch_size in
      match take read_batch_size stdout with
      | [] => {| yields := []; raised := None |}
      | data =>
          match decode_batch channels batch_size data with
          | Raise e => {| yields := []; raised := Some e |}
          | Return to_yield =>
              let rest :=
                read_loop steps' channels batch_size (drop read_batch_size stdout) in
              {| yields := to_yield :: yields rest; raised := raised rest |}
          end
      end
  end.

(** [raw_audio_from_file(input_file, batch_size, sample_rate, channels)]
    run to its end, given the bytes the decoder writes to its stdout.
    [np.zeros] refuses a negative dimension. *)
Definition raw_audio_from_file (stdout : list Byte.byte)
    (batch_size channels : Z) : batches :=
  if ((channels <? 0) || (batch_size <? 0))%Z then
    {| yields := []; raised := Some "ValueError" |}
  else
    read_loop (length stdout) (Z.to_nat channels) (Z.to_nat batch_size) stdout.

(** Sample [c] of frame [f] of an interleaved stream of [channels]
    channels. *)
Definition sample (stdout : list Byte.byte) (channels f c : nat) : Qc :=
  float32 (take 4 (drop (4 * (f * channels + c)) stdout)).

(** Batch number [k] of a stream of [frames] frames: row [c] holds the
    samples of channel [c] for the frames [k * batch_size] and on, and
    zeros where the stream has ended. *)
Definition batch (stdout : list Byte.byte) (channels batch_size frames k : nat)
  : list (list Qc) :=
  map (fun c : nat =>
         map (fun i : nat =>
                if decide (k * batch_size + i < frames)
                then sample stdout channels (k * batch_size + i) c
                else 0%Qc)
           (seq 0 batch_size))
    (seq 0 channels).

End Decoder.

(** In place of the float32 decoding: the first byte of the group, as a
    number. *)
Definition first_byte (group : list Byte.byte) : Qc :=
  match group with
  | b :: _ => Qc_of_Z (Z.of_N (Byte.to_N b))
  | [] => 0%Qc
  end.

(** Three frames of stereo, four bytes a sample. *)
Definition three_stereo_frames : list Byte.byte :=
  concat (map (fun b : Byte.byte => [b; Byte.x00; Byte.x00; Byte.x00])
            [Byte.x01; Byte.x02; Byte.x03; Byte.x04; Byte.x05; Byte.x06]).

End RawAudio.

(** * Properties of the frame pipe *)

Module FramePipeProofs.
Import FramePipe FramePipeInvariant.

Lemma in_order_S (payload : Z -> image) (c : nat) :
  in_order payload (S c) = in_order payload c ++ payload (Z.of_nat c).
Proof.
  unfold in_order. rewrite seq_S, map_app, concat_app. simpl.
  by rewrite app_nil_r.
Qed.

(** The invariant only looks at which indices were submitted. *)
Lemma pipe_inv_same_indices n payload (s1 s2 : list Z) w :
  (forall i, i ∈ s1 <-> i ∈ s2) -> pipe_inv n payload s1 w -> pipe_inv n payload s2 w.
Proof.
  intros Hsame (Hc & Hn & Hl & Hout & Hbuf & Hsub & Hrange & Hend).
  unfold pipe_inv. split_and!; try done.
  - intros i. rewrite Hbuf.
    destruct (decide (i ∈ s1 /\ (Z.of_nat (frames_written w) <= i)%Z)) as [[H1 H2]|H1].
    + rewrite decide_True; [done|]. split; [by apply Hsame | done].
    + rewrite decide_False; [done|]. intros [H2 H3]. apply H1.
      split; [by apply Hsame | done].
  - intros j Hj. apply Hsame. auto.
  - rewrite Forall_forall in *. intros i Hi. apply Hrange. by apply Hsame.
Qed.

Lemma pipe_inv_start n payload max_images :
  pipe_inv n payload [] (pipe_writer_start max_images).
Proof.
  unfold pipe_inv, frames_written. simpl. split_and!; try done; try lia.
  intros [? | ?]; done.
Qed.

(** A completed [write_to_pipe] of a fresh index below [n], with its
    payload, keeps the invariant. *)
Lemma pipe_inv_submit n payload indices w index w' :
  pipe_inv n payload indices w ->
  index ∉ indices -> (0 <= index < Z.of_nat n)%Z ->
  write_to_pipe w index (payload index) = Some (Return w') ->
  pipe_inv n payload (index :: indices) w'.
Proof.
  intros (Hc & Hn & Hl & Hout & Hbuf & Hsub & Hrange & Hend) Hfresh Hidx Hw.
  unfold write_to_pipe in Hw. destruct (too_many_images w); [done|].
  injection Hw as <-.
  assert (Hle : (Z.of_nat (frames_written w) <= index)%Z).
  { destruct (Z.le_gt_cases (Z.of_nat (frames_written w)) index) as [|Hlt]; [done|].
    exfalso. apply Hfresh, Hsub. lia. }
  unfold pipe_inv, frames_written in *. simpl.
  split_and!; try done.
  - intros i. destruct (decide (i = index)) as [->|Hne].
    + rewrite lookup_insert_eq. rewrite decide_True; [done|].
      split; [apply list_elem_of_here | done].
    + rewrite lookup_insert_ne by done. rewrite Hbuf.
      apply decide_ext. rewrite elem_of_cons. naive_solver.
  - intros j Hj. apply list_elem_of_further. auto.
  - by apply Forall_cons.
Qed.

(** One polling step of the writer keeps the invariant, never takes a
    frame back, and writes the next frame when that frame was submitted. *)
Lemma pipe_inv_writer n payload indices w :
  pipe_inv n payload indices w ->
  let w' := pipe_writer_iteration (Z.of_nat n) w in
  pipe_inv n payload indices w' /\
  frames_written w <= frames_written w' /\
  (frames_written w < n -> Z.of_nat (frames_written w) ∈ indices ->
   frames_written w' = S (frames_written w)).
Proof.
  intros (Hc & Hn & Hl & Hout & Hbuf & Hsub & Hrange & Hend).
  destruct w as [buf stop lock mx cnt out closed pc].
  unfold pipe_inv, frames_written, pipe_writer_iteration in *. simpl in *.
  destruct pc; simpl in *.
  - (* in the loop *)
    rewrite Nat.add_0_r in *.
    destruct stop; simpl.
    { assert (Z.to_nat cnt = n) by auto.
      rewrite Nat.add_0_r. split_and!; try done; lia. }
    assert (Hcnt : Z.of_nat (Z.to_nat cnt) = cnt) by lia.
    destruct (buf !! cnt) as [img|] eqn:Hlook; simpl.
    2:{ rewrite Nat.add_0_r. split_and!; try done.
        intros _ Hin. exfalso. rewrite Hbuf in Hlook.
        rewrite decide_True in Hlook; [done|]. rewrite Hcnt in Hin. split; [done|lia]. }
    rewrite Hbuf in Hlook.
    destruct (decide (cnt ∈ indices /\ (Z.of_nat (Z.to_nat cnt) <= cnt)%Z))
      as [[Hin _]|]; [|done].
    injection Hlook as <-.
    assert (Hlt : (0 <= cnt < Z.of_nat n)%Z).
    { rewrite Forall_forall in Hrange. by apply Hrange. }
    assert (Hnew : forall i : Z,
      delete cnt buf !! i =
      if decide (i ∈ indices /\ (Z.of_nat (S (Z.to_nat cnt)) <= i)%Z)
      then Some (payload i) else None).
    { intros i. destruct (decide (i = cnt)) as [->|Hne].
      - rewrite lookup_delete_eq. rewrite decide_False; [done|]. lia.
      - rewrite lookup_delete_ne by done. rewrite Hbuf.
        apply decide_ext. split; intros [? ?]; (split; [done|lia]). }
    assert (Hsub' : forall j : Z,
      (0 <= j < Z.of_nat (S (Z.to_nat cnt)))%Z -> j ∈ indices).
    { intros j Hj. destruct (decide (j = cnt)) as [->|Hne]; [done|].
      apply Hsub. lia. }
    assert (Hout' : out ++ payload cnt = in_order payload (S (Z.to_nat cnt))).
    { rewrite in_order_S, Hout, Hcnt. done. }
    destruct (Z.eqb_spec cnt (Z.of_nat n - 1)) as [Hlast|Hmore]; simpl.
    + replace (Z.to_nat cnt + 1) with (S (Z.to_nat cnt)) by lia.
      split_and!; try done; lia.
    + replace (Z.to_nat (cnt + 1) + 0) with (S (Z.to_nat cnt)) by lia.
      split_and!; try done; try lia.
      intros [? | ?]; done.
  - (* waiting inside close_pipe *)
    assert (Hfull : Z.to_nat cnt + 1 = n) by (apply Hend; right; done).
    destruct (bool_decide (buf = ∅) && negb lock) eqn:Hready; simpl.
    + replace (Z.to_nat (cnt + 1) + 0) with (Z.to_nat cnt + 1) by lia.
      split_and!; try done; lia.
    + split_and!; try done; lia.
  - (* past the loop *)
    assert (Hfull : Z.to_nat cnt + 0 = n) by (apply Hend; right; done).
    split_and!; try done; lia.
Qed.

(** The invariant along an interleaving whose submissions are fresh,
    below [n] and carry their payloads. *)
Lemma pipe_inv_schedule n payload acts : forall indices w w',
  pipe_inv n payload indices w ->
  schedule (Z.of_nat n) w acts = Some w' ->
  NoDup ((submitted acts).*1 ++ indices) ->
  Forall (fun f : Z * image =>
            (0 <= f.1 < Z.of_nat n)%Z /\ f.2 = payload f.1) (submitted acts) ->
  pipe_inv n payload ((submitted acts).*1 ++ indices) w'.
Proof.
  induction acts as [|a acts IH]; intros indices w w' Hinv Hrun Hnodup Hall.
  - simpl in *. by injection Hrun as <-.
  - destruct a as [index img|]; simpl in *.
    + destruct (write_to_pipe w index img) as [[w1|e]|] eqn:Hw; try done.
      apply Forall_cons in Hall as [[Hidx Himg] Hall]. simpl in *. subst img.
      apply NoDup_cons in Hnodup as [Hfresh Hnodup].
      assert (Hinv1 : pipe_inv n payload (index :: indices) w1).
      { eapply pipe_inv_submit; eauto. set_solver. }
      specialize (IH (index :: indices) w1 w' Hinv1 Hrun).
      eapply pipe_inv_same_indices; [|apply IH].
      * intros i. set_solver.
      * apply NoDup_app. apply NoDup_app in Hnodup as (Hn1 & Hn2 & Hn3).
        split; [done|]. split.
        -- intros x Hx Hx'. apply elem_of_cons in Hx' as [->|Hx'].
           ++ apply Hfresh. set_solver.
           ++ by apply (Hn2 x).
        -- apply NoDup_cons. split; [set_solver | done].
      * done.
    + apply (IH indices (pipe_writer_iteration (Z.of_nat n) w) w'); try done.
      by apply pipe_inv_writer.
Qed.

(** Once every frame is submitted, the writer left alone for enough
    polling steps has written them all. *)
Lemma pipe_writer_drains n payload indices : forall k w,
  pipe_inv n payload indices w ->
  (forall i : Z, (0 <= i < Z.of_nat n)%Z -> i ∈ indices) ->
  n - frames_written w <= k ->
  stdin (pipe_writer_loop (Z.of_nat n) k w) = in_order payload n.
Proof.
  induction k as [|k IH]; intros w Hinv Hall Hk; simpl.
  - destruct Hinv as (_ & Hn & _ & Hout & _).
    rewrite Hout. f_equal. lia.
  - destruct (pipe_inv_writer _ _ _ _ Hinv) as (Hinv' & Hmono & Hstep).
    apply IH; [done | done |].
    destruct (decide (frames_written w < n)) as [Hlt|Hge].
    + rewrite Hstep; [lia | done |]. apply Hall. lia.
    + lia.
Qed.

(** C1.  Frames [0 .. n-1], each submitted once through [write_to_pipe]
    in any order and under any interleaving with the writer loop started
    for [n] frames, reach stdin as [payload 0 ++ ... ++ payload (n-1)]:
    once the last submission is in, the writer needs at most [n] more
    polling steps, and further steps add nothing. *)
Theorem pipe_writes_in_index_order (n : nat) (payload : Z -> image)
    (max_images : Z) (acts : list action) (w : FFmpegWrapper) (k : nat) :
  schedule (Z.of_nat n) (pipe_writer_start max_images) acts = Some w ->
  Permutation (submitted acts) (frames payload n) ->
  n <= k ->
  stdin (pipe_writer_loop (Z.of_nat n) k w) = in_order payload n.
Proof.
  intros Hrun Hperm Hk.
  assert (Hidx : Permutation (submitted acts).*1 (Z.of_nat <$> seq 0 n)).
  { rewrite Hperm. unfold frames. rewrite <- list_fmap_compose. done. }
  assert (Hinv : pipe_inv n payload ((submitted acts).*1 ++ []) w).
  { apply (pipe_inv_schedule n payload acts [] (pipe_writer_start max_images)).
    - apply pipe_inv_start.
    - done.
    - rewrite app_nil_r, Hidx. apply NoDup_fmap; [apply _ | apply NoDup_seq].
    - rewrite Hperm. unfold frames. apply Forall_fmap, Forall_forall.
      intros i Hi. apply elem_of_seq in Hi. simpl. split; [lia | done]. }
  apply (pipe_writer_drains n payload ((submitted acts).*1 ++ [])); [done | | lia].
  intros i Hi. rewrite app_nil_r, Hidx.
  apply list_elem_of_fmap. exists (Z.to_nat i). split; [lia|].
  apply elem_of_seq. lia.
Qed.

Lemma pipe_writes_in_index_order_witness :
  exists w : FFmpegWrapper,
    schedule 4 (pipe_writer_start 3) four_frames_out_of_order = Some w /\
    stdin (pipe_writer_loop 4 4 w) = in_order four_payloads 4.
Proof.
  eexists. split; [vm_compute; reflexivity|].
  apply (pipe_writes_in_index_order 4 four_payloads 3 four_frames_out_of_order).
  - vm_compute; reflexivity.
  - unfold frames. simpl. solve_Permutation.
  - lia.
Defined.

(** At every moment of a run in which distinct frames below [n] are
    submitted, stdin holds the payloads of the frames [0 .. c-1], in index
    order, for the number [c] of frames written so far. *)
Theorem stdin_is_an_index_ordered_prefix (n : nat) (payload : Z -> image)
    (max_images : Z) (acts : list action) (w : FFmpegWrapper) :
  schedule (Z.of_nat n) (pipe_writer_start max_images) acts = Some w ->
  NoDup (submitted acts).*1 ->
  Forall (fun f : Z * image =>
            (0 <= f.1 < Z.of_nat n)%Z /\ f.2 = payload f.1) (submitted acts) ->
  frames_written w <= n /\ stdin w = in_order payload (frames_written w).
Proof.
  intros Hrun Hnodup Hall.
  destruct (pipe_inv_schedule n payload acts [] (pipe_writer_start max_images) w)
    as (_ & Hn & _ & Hout & _); try done.
  - apply pipe_inv_start.
  - by rewrite app_nil_r.
Qed.

Lemma stdin_is_an_index_ordered_prefix_witness :
  exists w : FFmpegWrapper,
    schedule 4 (pipe_writer_start 3)
      [Submit 1 (four_payloads 1); Submit 0 (four_payloads 0); Writer; Writer]
      = Some w /\
    frames_written w <= 4 /\ stdin w = in_order four_payloads (frames_written w).
Proof.
  eexists. split; [vm_compute; reflexivity|].
  apply (stdin_is_an_index_ordered_prefix 4 four_payloads 3
           [Submit 1 (four_payloads 1); Submit 0 (four_payloads 0); Writer; Writer]).
  - vm_compute; reflexivity.
  - simpl. compute_done.
  - simpl. repeat (apply List.Forall_cons; [split; [simpl; lia | reflexivity]|]).
    apply List.Forall_nil.
Defined.

Lemma submitted_submit_all (order : list (Z * image)) :
  submitted (submit_all order) = order.
Proof.
  induction order as [|[index img] order IH]; simpl; [done|]. by rewrite IH.
Qed.

(** A run of submissions goes through when the buffer has room for all of
    them. *)
Lemma submit_all_accepted frame_count (order : list (Z * image)) : forall w,
  (Z.of_nat (size (images_to_pipe w) + length order)
   <= max_images_on_pipe_buffer w)%Z ->
  exists w', schedule frame_count w (submit_all order) = Some w'.
Proof.
  induction order as [|[index img] order IH]; intros w Hroom; simpl.
  - by eexists.
  - unfold write_to_pipe, too_many_images.
    destruct (Z.leb_spec (max_images_on_pipe_buffer w)
                (Z.of_nat (size (images_to_pipe w)))) as [Hfull|_].
    { simpl in Hroom. lia. }
    apply IH. simpl in *.
    pose proof (map_size_insert index img (images_to_pipe w)) as Hsize.
    destruct (images_to_pipe w !! index); unfold id in Hsize; lia.
Qed.

(** With a buffer bound of at least [n], frames [0 .. n-1] handed over in
    any order are all accepted without a wait, and the writer then puts
    them on stdin in index order. *)
Theorem any_order_goes_through_with_room (n : nat) (payload : Z -> image)
    (max_images : Z) (order : list (Z * image)) :
  Permutation order (frames payload n) ->
  (Z.of_nat n <= max_images)%Z ->
  exists w : FFmpegWrapper,
    schedule (Z.of_nat n) (pipe_writer_start max_images) (submit_all order)
      = Some w /\
    stdin (pipe_writer_loop (Z.of_nat n) n w) = in_order payload n.
Proof.
  intros Hperm Hmax.
  destruct (submit_all_accepted (Z.of_nat n) order (pipe_writer_start max_images))
    as [w Hrun].
  { simpl. rewrite map_size_empty. apply Permutation_length in Hperm.
    unfold frames in Hperm. rewrite length_map, length_seq in Hperm. lia. }
  exists w. split; [done|].
  assert (Hidx : Permutation order.*1 (Z.of_nat <$> seq 0 n)).
  { rewrite Hperm. unfold frames. by rewrite <- list_fmap_compose. }
  apply (pipe_writer_drains n payload (order.*1 ++ [])); [| |lia].
  - rewrite <- (submitted_submit_all order) at 1.
    apply (pipe_inv_schedule n payload (submit_all order) []
             (pipe_writer_start max_images)); rewrite ?submitted_submit_all.
    + apply pipe_inv_start.
    + done.
    + rewrite app_nil_r, Hidx. apply NoDup_fmap; [apply _ | apply NoDup_seq].
    + rewrite Hperm. unfold frames. apply Forall_fmap, Forall_forall.
      intros i Hi. apply elem_of_seq in Hi. simpl. split; [lia | done].
  - intros i Hi. rewrite app_nil_r, Hidx.
    apply list_elem_of_fmap. exists (Z.to_nat i). split; [lia|].
    apply elem_of_seq. lia.
Qed.

Lemma any_order_goes_through_with_room_witness :
  exists w : FFmpegWrapper,
    schedule (Z.of_nat 4) (pipe_writer_start 4)
      (submit_all [(3%Z, four_payloads 3); (1%Z, four_payloads 1);
                   (0%Z, four_payloads 0); (2%Z, four_payloads 2)])
      = Some w /\
    stdin (pipe_writer_loop (Z.of_nat 4) 4 w) = in_order four_payloads 4.
Proof.
  apply (any_order_goes_through_with_room 4 four_payloads 4
           [(3%Z, four_payloads 3); (1%Z, four_payloads 1);
            (0%Z, four_payloads 0); (2%Z, four_payloads 2)]).
  - unfold frames. simpl. solve_Permutation.
  - lia.
Defined.

(** With a bound of two frames and frames 3 and 1 handed over first, the
    pipe stands still: no [write_to_pipe] call gets past its wait, and the
    writer, which waits for frame 0, writes nothing. *)
Theorem out_of_order_frames_can_fill_the_buffer :
  schedule 4 (pipe_writer_start 2)
    [Submit 3 (four_payloads 3); Submit 1 (four_payloads 1)]
    = Some two_of_four_buffered /\
  (forall (index : Z) (img : image),
     write_to_pipe two_of_four_buffered index img = None) /\
  (forall k : nat, pipe_writer_loop 4 k two_of_four_buffered = two_of_four_buffered).
Proof.
  split_and!.
  - vm_compute; reflexivity.
  - intros index img. reflexivity.
  - induction k as [|k IH]; [done|]. simpl.
    replace (pipe_writer_iteration 4 two_of_four_buffered)
      with two_of_four_buffered by (vm_compute; reflexivity).
    exact IH.
Qed.

(** C5, as the code has it: nothing in [write_to_pipe] looks for an index
    that is already buffered.  With room in the buffer the second
    submission of an index returns and replaces the buffered frame; the
    other frames, their number, the counter and stdin stay as they were. *)
Theorem write_to_pipe_replaces_buffered_frame (w : FFmpegWrapper) (index : Z)
    (old img : image) :
  images_to_pipe w !! index = Some old ->
  too_many_images w = false ->
  exists w' : FFmpegWrapper,
    write_to_pipe w index img = Some (Return w') /\
    images_to_pipe w' !! index = Some img /\
    (forall j : Z, j <> index -> images_to_pipe w' !! j = images_to_pipe w !! j) /\
    size (images_to_pipe w') = size (images_to_pipe w) /\
    count w' = count w /\ stdin w' = stdin w.
Proof.
  intros Hold Hroom. unfold write_to_pipe. rewrite Hroom.
  eexists. split; [reflexivity|]. simpl. split_and!; try done.
  - apply lookup_insert_eq.
  - intros j Hj. by apply lookup_insert_ne.
  - rewrite <- (insert_delete_id (images_to_pipe w) index old) at 2 by done.
    rewrite <- (insert_delete_eq (images_to_pipe w) index img).
    rewrite !map_size_insert_None by apply lookup_delete_eq. done.
Qed.

Lemma write_to_pipe_replaces_buffered_frame_witness :
  exists w' : FFmpegWrapper,
    write_to_pipe frame_one_buffered 1 [Byte.x02] = Some (Return w') /\
    images_to_pipe w' !! 1%Z = Some [Byte.x02] /\
    (forall j : Z, j <> 1%Z ->
       images_to_pipe w' !! j = images_to_pipe frame_one_buffered !! j) /\
    size (images_to_pipe w') = size (images_to_pipe frame_one_buffered) /\
    count w' = count frame_one_buffered /\ stdin w' = stdin frame_one_buffered.
Proof.
  apply (write_to_pipe_replaces_buffered_frame
           frame_one_buffered 1 [Byte.x01] [Byte.x02]).
  - vm_compute; reflexivity.
  - vm_compute; reflexivity.
Defined.

(** C5 as stated fails: frame 1 is submitted twice before the writer gets
    to it; the second call returns as the first did, raises nothing, and
    the buffer now holds the second payload. *)
Lemma second_submit_is_not_refused :
  exists w1 w2 : FFmpegWrapper,
    write_to_pipe (pipe_writer_start 5) 1 [Byte.x01] = Some (Return w1) /\
    images_to_pipe w1 !! 1%Z = Some [Byte.x01] /\
    write_to_pipe w1 1 [Byte.x02] = Some (Return w2) /\
    images_to_pipe w2 !! 1%Z = Some [Byte.x02] /\
    images_to_pipe w2 !! 1%Z <> images_to_pipe w1 !! 1%Z.
Proof.
  eexists. eexists.
  split; [vm_compute; reflexivity|].
  split; [vm_compute; reflexivity|].
  split; [vm_compute; reflexivity|].
  split; [vm_compute; reflexivity|].
  vm_compute. intros H. discriminate H.
Qed.

End FramePipeProofs.

(** * Properties of the value interpolator *)

Module InterpolatorProofs.
Import Interpolator.


(** [next] on a name that was never added raises [KeyError]. *)
Lemma next_on_missing interpolaters name feed mode :
  interpolaters !! name = None ->
  next interpolaters name feed mode = Raise "KeyError".
Proof.
  intros Hit. unfold next, getitem_interpolater.
  destruct (decide (mode = "fill")) as [->|Hfill]; [by rewrite Hit|].
  destruct (decide (mode = "replace")) as [->|Hreplace]; [by (simpl; rewrite Hit)|].
  destruct (decide (mode = "add")) as [->|Hadd]; [by (simpl; rewrite Hit)|].
  simpl. by rewrite Hit.
Qed.



















End InterpolatorProofs.

(** * Properties of the audio analysis *)

Module AudioProofs.
Import Audio.

Lemma filter_all {A : Type} (P : A -> Prop) `{forall x, Decision (P x)}
    (l : list A) :
  Forall P l -> filter P l = l.
Proof.
  induction 1 as [|x l Hx _ IH]; [done|].
  rewrite filter_cons_True by done. by rewrite IH.
Qed.

Lemma count_le_mono (x m : Qc) (a : list Qc) :
  (x <= m)%Qc -> count_le x a <= count_le m a.
Proof.
  intros Hxm. unfold count_le. induction a as [|y a IH]; [done|].
  rewrite !filter_cons. destruct (decide (y <= x)%Qc) as [Hy|Hy].
  - rewrite decide_True by (by apply Qcle_trans with x). simpl. lia.
  - destruct (decide (y <= m)%Qc); simpl; lia.
Qed.

Lemma count_ge_mono (x m : Qc) (a : list Qc) :
  (m <= x)%Qc -> count_ge x a <= count_ge m a.
Proof.
  intros Hxm. unfold count_ge. induction a as [|y a IH]; [done|].
  rewrite !filter_cons. destruct (decide (x <= y)%Qc) as [Hy|Hy].
  - rewrite decide_True by (by apply Qcle_trans with x). simpl. lia.
  - destruct (decide (m <= y)%Qc); simpl; lia.
Qed.

(** In a sorted list the entry at position [k] has the [k + 1] entries up
    to it below or at it, and the entries from it on above or at it. *)
Lemma sorted_entry_counts (s : list Qc) (k : nat) (x : Qc) :
  StronglySorted Qcle s -> s !! k = Some x ->
  k + 1 <= count_le x s /\ length s - k <= count_ge x s.
Proof.
  intros Hsorted Hk.
  apply list_elem_of_split_length in Hk as (l1 & l2 & -> & ->).
  pose proof Hsorted as Hsplit.
  apply StronglySorted_app in Hsplit as (Hcross & _ & Hright).
  apply StronglySorted_cons in Hright as [Hafter _].
  unfold count_le, count_ge.
  rewrite !filter_app, !length_app. split.
  - rewrite (filter_all (fun y => (y <= x)%Qc) l1).
    2:{ apply Forall_forall. intros y Hy. apply Hcross; [done|].
        apply list_elem_of_here. }
    rewrite filter_cons_True by apply Qcle_refl. simpl. lia.
  - rewrite (filter_all (fun y => (x <= y)%Qc) (x :: l2)).
    2:{ apply Forall_cons. split; [apply Qcle_refl | done]. }
    simpl. lia.
Qed.

Lemma Qc_midpoint (a b : Qc) :
  (a <= b)%Qc -> (a <= (a + b) / 2)%Qc /\ ((a + b) / 2 <= b)%Qc.
Proof.
  intros Hab.
  assert (H2 : (0 < 2)%Qc) by reflexivity.
  split.
  - apply (Qcmult_le_mono_pos_r _ _ 2 H2).
    replace ((a + b) / 2 * 2)%Qc with (a + b)%Qc by (field; done).
    replace (a * 2)%Qc with (a + a)%Qc by ring.
    by apply Qcplus_le_mono_l.
  - apply (Qcmult_le_mono_pos_r _ _ 2 H2).
    replace ((a + b) / 2 * 2)%Qc with (a + b)%Qc by (field; done).
    replace (b * 2)%Qc with (b + b)%Qc by ring.
    by apply Qcplus_le_mono_r.
Qed.

(** [np.median] returns a median: at least half of the entries are at most
    the value it returns, and at least half are at least that value. *)
Theorem np_median_is_a_median (a : list Qc) (m : Qc) :
  np_median a = Num m ->
  length a <= 2 * count_le m a /\ length a <= 2 * count_ge m a.
Proof.
  unfold np_median. set (s := merge_sort Qcle a).
  assert (Hsorted : StronglySorted Qcle s)
    by (apply StronglySorted_merge_sort; apply _).
  assert (Hperm : Permutation s a) by apply merge_sort_Permutation.
  assert (Hle : forall x, count_le x s = count_le x a).
  { intros x. unfold count_le. by rewrite Hperm. }
  assert (Hge : forall x, count_ge x s = count_ge x a).
  { intros x. unfold count_ge. by rewrite Hperm. }
  rewrite <- (Permutation_length Hperm), <- Hle, <- Hge.
  destruct (length s) as [|n'] eqn:Hn; [done|].
  set (n := S n') in *.
  assert (Hhalf : n / 2 < length s).
  { rewrite Hn. apply Nat.div_lt; lia. }
  destruct (lookup_lt_is_Some_2 s (n / 2) Hhalf) as [hi Hhi].
  destruct (sorted_entry_counts s (n / 2) hi Hsorted Hhi) as [Hhi_le Hhi_ge].
  rewrite Hn in Hhi_ge.
  pose proof (Nat.div_mod_eq n 2) as Hdiv.
  destruct (Nat.even n) eqn:Heven.
  - apply Nat.even_spec in Heven. destruct Heven as [k Hk].
    assert (Hk2 : n / 2 = k).
    { rewrite Hk, Nat.mul_comm. apply Nat.div_mul. done. }
    assert (Hlow : n / 2 - 1 < length s) by lia.
    destruct (lookup_lt_is_Some_2 s (n / 2 - 1) Hlow) as [lo Hlo].
    destruct (sorted_entry_counts s (n / 2 - 1) lo Hsorted Hlo) as [Hlo_le Hlo_ge].
    rewrite !nth_lookup, Hlo, Hhi. simpl. intros [= <-].
    assert (Horder : (lo <= hi)%Qc).
    { rewrite <- (take_drop_middle s (n / 2) hi Hhi) in Hsorted.
      apply StronglySorted_app in Hsorted as (Hcross & _ & _).
      apply Hcross; [|apply list_elem_of_here].
      apply list_elem_of_lookup. exists (n / 2 - 1).
      rewrite lookup_take_lt by lia. done. }
    destruct (Qc_midpoint lo hi Horder) as [Hmid_lo Hmid_hi].
    pose proof (count_le_mono lo ((lo + hi) / 2)%Qc s Hmid_lo).
    pose proof (count_ge_mono hi ((lo + hi) / 2)%Qc s Hmid_hi).
    subst n. lia.
  - rewrite nth_lookup, Hhi. simpl. intros [= <-].
    assert (Hodd : n mod 2 = 1).
    { pose proof (Nat.mod_upper_bound n 2).
      destruct (n mod 2) as [|[|r]] eqn:Hr; [|done|lia].
      exfalso. assert (Nat.even n = true); [|congruence].
      apply Nat.even_spec. exists (n / 2). lia. }
    subst n. lia.
Qed.

Lemma np_median_is_a_median_witness :
  length [Qc_of_Z 4; Qc_of_Z 1; Qc_of_Z 3; Qc_of_Z 2]
    <= 2 * count_le (Q2Qc (Qmake 5 2)) [Qc_of_Z 4; Qc_of_Z 1; Qc_of_Z 3; Qc_of_Z 2] /\
  length [Qc_of_Z 4; Qc_of_Z 1; Qc_of_Z 3; Qc_of_Z 2]
    <= 2 * count_ge (Q2Qc (Qmake 5 2)) [Qc_of_Z 4; Qc_of_Z 1; Qc_of_Z 3; Qc_of_Z 2].
Proof.
  apply (np_median_is_a_median [Qc_of_Z 4; Qc_of_Z 1; Qc_of_Z 3; Qc_of_Z 2]
           (Q2Qc (Qmake 5 2))).
  compute_done.
Defined.

(** [argmin], continued from a run [pre] whose least value [best] stands
    at [best_i]: the index of a least value of the whole. *)
Lemma argmin_from_spec (l : list Qc) : forall (pre : list Qc) (best_i : nat) (best : Qc),
  pre !! best_i = Some best ->
  Forall (fun x => (best <= x)%Qc) pre ->
  exists v : Qc,
    (pre ++ l) !! argmin_from l (length pre) best_i best = Some v /\
    Forall (fun x => (v <= x)%Qc) (pre ++ l).
Proof.
  induction l as [|x l IH]; intros pre best_i best Hbest Hleast; simpl.
  - exists best. rewrite app_nil_r. done.
  - replace (pre ++ x :: l) with ((pre ++ [x]) ++ l) by (by rewrite <- app_assoc).
    replace (S (length pre)) with (length (pre ++ [x]))
      by (rewrite length_app; simpl; lia).
    destruct (decide (x < best)%Qc) as [Hlt|Hge].
    + apply IH.
      * rewrite lookup_app_r by lia. by rewrite Nat.sub_diag.
      * apply Forall_app. split.
        -- eapply Forall_impl; [exact Hleast|]. simpl. intros y Hy.
           apply Qclt_le_weak. by apply Qclt_le_trans with best.
        -- apply Forall_cons. split; [apply Qcle_refl | apply Forall_nil_2].
    + apply IH.
      * rewrite lookup_app_l; [done|]. by apply lookup_lt_Some in Hbest.
      * apply Forall_app. split; [done|].
        apply Forall_cons. split; [by apply Qcnot_lt_le | apply Forall_nil_2].
Qed.

(** [find_nearest] returns the position and the value of an entry of the
    array that is as near to [value] as any. *)
Theorem find_nearest_is_nearest (array : list Qc) (value : Qc)
    (index : nat) (found : Qc) :
  find_nearest array value = Return (index, found) ->
  array !! index = Some found /\
  Forall (fun x => (Qcabs (found - value) <= Qcabs (x - value))%Qc) array.
Proof.
  unfold find_nearest, np_argmin.
  destruct array as [|a0 rest]; [done|]. cbn [map mbind result_bind].
  destruct (argmin_from_spec (map (fun a => Qcabs (a - value)) rest)
              [Qcabs (a0 - value)] 0 (Qcabs (a0 - value)))
    as (v & Hv & Hleast).
  { done. }
  { apply Forall_cons. split; [apply Qcle_refl | apply Forall_nil_2]. }
  simpl length in Hv.
  set (i := argmin_from _ 1 0 _) in *.
  unfold getitem. destruct ((a0 :: rest) !! i) as [x|] eqn:Hx; [|done].
  simpl. intros [= <- <-]. split; [done|].
  change ([Qcabs (a0 - value)] ++ map (fun a => Qcabs (a - value)) rest)
    with ((fun a => Qcabs (a - value)) <$> (a0 :: rest)) in Hv, Hleast.
  rewrite list_lookup_fmap, Hx in Hv. simpl in Hv. injection Hv as <-.
  apply Forall_forall. intros y Hy. rewrite Forall_forall in Hleast.
  apply Hleast. apply list_elem_of_fmap. by exists y.
Qed.

Lemma find_nearest_is_nearest_witness :
  [Qc_of_Z 0; Qc_of_Z 125; Qc_of_Z 250] !! 1 = Some (Qc_of_Z 125) /\
  Forall (fun x => (Qcabs (Qc_of_Z 125 - Qc_of_Z 110) <= Qcabs (x - Qc_of_Z 110))%Qc)
    [Qc_of_Z 0; Qc_of_Z 125; Qc_of_Z 250].
Proof.
  apply (find_nearest_is_nearest [Qc_of_Z 0; Qc_of_Z 125; Qc_of_Z 250]
           (Qc_of_Z 110) 1 (Qc_of_Z 125)).
  compute_done.
Defined.

(** On an array that is not empty [find_nearest] returns, with a position
    inside the array. *)
Lemma find_nearest_returns (array : list Qc) (value : Qc) :
  array <> [] ->
  exists (index : nat) (found : Qc),
    find_nearest array value = Return (index, found) /\ index < length array.
Proof.
  intros Hne. unfold find_nearest, np_argmin.
  destruct array as [|a0 rest]; [done|]. cbn [map mbind result_bind].
  destruct (argmin_from_spec (map (fun a => Qcabs (a - value)) rest)
              [Qcabs (a0 - value)] 0 (Qcabs (a0 - value)))
    as (v & Hv & _).
  { done. }
  { apply Forall_cons. split; [apply Qcle_refl | apply Forall_nil_2]. }
  simpl length in Hv.
  set (i := argmin_from _ 1 0 _) in *.
  apply lookup_lt_Some in Hv. rewrite length_app, length_map in Hv. simpl in Hv.
  unfold getitem.
  destruct (lookup_lt_is_Some_2 (a0 :: rest) i) as [x Hx]; [simpl; lia|].
  rewrite Hx. simpl. exists i, x. split; [done | simpl; lia].
Qed.

Section Externals.

Variable np_std : list Qc -> npfloat.
Variable samplerate_resample : list Qc -> Qc -> list Qc.
Variable binned_fft : list Qc -> Z -> Z -> list Qc * list Qc.
Variable value_on_line_of_two_points : Qc -> Qc -> Qc -> Qc -> Qc -> Qc.

Local Notation bins_present := (bins_present samplerate_resample binned_fft).
Local Notation resample := (resample samplerate_resample).
Local Notation for_wanted_freqs := (for_wanted_freqs value_on_line_of_two_points).
Local Notation for_band :=
  (for_band samplerate_resample binned_fft value_on_line_of_two_points).
Local Notation for_config :=
  (for_config samplerate_resample binned_fft value_on_line_of_two_points).
Local Notation for_audio_slice :=
  (for_audio_slice samplerate_resample binned_fft value_on_line_of_two_points).
Local Notation band_magnitudes :=
  (band_magnitudes samplerate_resample binned_fft value_on_line_of_two_points).
Local Notation channel_major :=
  (channel_major samplerate_resample binned_fft value_on_line_of_two_points).
Local Notation get_info_on_audio_slice :=
  (get_info_on_audio_slice np_std samplerate_resample binned_fft
     value_on_line_of_two_points).

(** Each loop appends to [processed] what it would have collected from an
    empty list. *)
Lemma for_wanted_freqs_appends binned wanted_freqs : forall processed,
  for_wanted_freqs binned wanted_freqs processed =
  (new ← for_wanted_freqs binned wanted_freqs []; Return (processed ++ new)).
Proof.
  induction wanted_freqs as [|freq rest IH]; intros processed; simpl.
  - by rewrite app_nil_r.
  - destruct (find_nearest binned.1 freq) as [nearest|e]; [|done]. simpl.
    destruct (getitem binned.2 nearest.1) as [value|e]; [|done]. simpl.
    rewrite (IH (processed ++ _)), (IH [_]).
    destruct (for_wanted_freqs binned rest []) as [new|e]; [|done]. simpl.
    by rewrite <- app_assoc.
Qed.

Lemma for_band_appends self data osr value processed :
  for_band self data osr value processed =
  (new ← band_magnitudes self data osr value; Return (processed ++ new)).
Proof.
  unfold Audio.band_magnitudes, Audio.for_band.
  destruct (resample data osr (sample_rate value)) as [resampled|e]; [|done].
  simpl. apply for_wanted_freqs_appends.
Qed.

Lemma for_config_appends self data osr items : forall processed,
  for_config self data osr items processed =
  (per_band ← traverse
     (fun item : string * band => band_magnitudes self data osr item.2) items;
   Return (processed ++ concat per_band)).
Proof.
  induction items as [|[name value] items IH]; intros processed; simpl.
  - by rewrite app_nil_r.
  - rewrite for_band_appends.
    destruct (band_magnitudes self data osr value) as [new|e]; [|done]. simpl.
    rewrite IH.
    destruct (traverse _ items) as [per_band|e]; [|done]. simpl.
    by rewrite app_assoc.
Qed.

Lemma for_audio_slice_appends self osr channels : forall processed,
  for_audio_slice self channels osr processed =
  (new ← channel_major self channels osr; Return (processed ++ new)).
Proof.
  unfold Audio.channel_major.
  induction channels as [|data channels IH]; intros processed; simpl.
  - by rewrite app_nil_r.
  - destruct (config_items self) as [items|e]; [|done]. simpl.
    rewrite for_config_appends.
    destruct (traverse _ items) as [per_band|e]; [|done]. simpl.
    rewrite IH.
    destruct (traverse _ channels) as [groups|e]; [|done]. simpl.
    by rewrite <- app_assoc.
Qed.

(** C3, as the code has it: the [fft] sequence is grouped by channel first
    (the outer loop runs over the rows of the batch) and by band, in
    declaration order, inside each channel. *)
Theorem fft_is_grouped_by_channel (self : AudioProcessing)
    (channel0 channel1 : list Qc) (more : list (list Qc))
    (original_sample_rate : Z) :
  info (get_info_on_audio_slice self (channel0 :: channel1 :: more)
          original_sample_rate) "fft" =
  NdArray <$>
    from_return (channel_major self (channel0 :: channel1 :: more)
                   original_sample_rate).
Proof.
  unfold Audio.get_info_on_audio_slice. cbn [getitem lookup list_lookup mbind
    result_bind].
  rewrite (for_audio_slice_appends self original_sample_rate _ []).
  destruct (channel_major self _ original_sample_rate) as [new|e]; simpl.
  - reflexivity.
  - reflexivity.
Qed.

(** What [processed] gains: one entry per wanted note. *)
Lemma for_wanted_freqs_length binned wanted_freqs : forall processed out,
  for_wanted_freqs binned wanted_freqs processed = Return out ->
  length out = length processed + length wanted_freqs.
Proof.
  induction wanted_freqs as [|freq rest IH]; intros processed out; simpl.
  - intros [= <-]. lia.
  - destruct (find_nearest binned.1 freq) as [nearest|e]; [|done]. simpl.
    destruct (getitem binned.2 nearest.1) as [value|e]; [|done]. simpl.
    intros Hout. apply IH in Hout. rewrite length_app in Hout. simpl in Hout. lia.
Qed.

Lemma band_magnitudes_length self data osr value new :
  band_magnitudes self data osr value = Return new ->
  length new =
  length (list_items_in_between (piano_keys_frequencies self)
            (start_freq value) (end_freq value)).
Proof.
  unfold Audio.band_magnitudes, Audio.for_band.
  destruct (resample data osr (sample_rate value)) as [resampled|e]; [|done].
  simpl. intros Hout. by apply for_wanted_freqs_length in Hout.
Qed.

Lemma per_band_length self data osr items : forall per_band,
  traverse (fun item : string * band => band_magnitudes self data osr item.2)
    items = Return per_band ->
  length (concat per_band) = wanted_count self items.
Proof.
  induction items as [|item items IH]; intros per_band; simpl.
  - by intros [= <-].
  - destruct (band_magnitudes self data osr item.2) as [new|e] eqn:Hnew; [|done].
    simpl. destruct (traverse _ items) as [rest|e]; [|done]. simpl.
    intros [= <-]. simpl. rewrite length_app.
    rewrite (band_magnitudes_length _ _ _ _ _ Hnew), (IH rest eq_refl). done.
Qed.

Lemma channel_major_length self items osr channels : forall new,
  config self = Some items ->
  channel_major self channels osr = Return new ->
  length new = length channels * wanted_count self items.
Proof.
  unfold Audio.channel_major, config_items. intros new Hconfig. rewrite Hconfig.
  revert new. induction channels as [|data channels IH]; intros new; simpl.
  - by intros [= <-].
  - destruct (traverse _ items) as [per_band|e] eqn:Hband; [|done]. simpl.
    destruct (traverse _ channels) as [groups|e]; [|done]. simpl in *.
    intros [= <-]. simpl. rewrite length_app.
    rewrite (per_band_length _ _ _ _ _ Hband), (IH _ eq_refl). done.
Qed.

(** C6.  When the analysis yields its [fft] sequence, the length of the
    sequence is the number of channels times the number of table notes
    inside the bands' ranges, summed over the bands: it depends on the
    configuration and on nothing else of the batch or the sample rate. *)
Theorem fft_length_fixed_by_config (self : AudioProcessing)
    (items : list (string * band)) (audio_slice : list (list Qc))
    (original_sample_rate : Z) (fft : list Qc) :
  config self = Some items ->
  info (get_info_on_audio_slice self audio_slice original_sample_rate) "fft"
    = Some (NdArray fft) ->
  length fft = length audio_slice * wanted_count self items.
Proof.
  intros Hconfig Hfft.
  destruct audio_slice as [|channel0 [|channel1 more]]; [done | done |].
  unfold Audio.get_info_on_audio_slice in Hfft.
  cbn [getitem lookup list_lookup mbind result_bind] in Hfft.
  rewrite (for_audio_slice_appends self original_sample_rate _ []) in Hfft.
  destruct (channel_major self _ original_sample_rate) as [new|e] eqn:Hnew;
    [|done].
  simpl in Hfft. injection Hfft as <-.
  by apply (channel_major_length _ _ _ _ _ Hconfig Hnew).
Qed.

(** With bins for every wanted note the loops go through. *)
Lemma for_wanted_freqs_returns binned wanted_freqs : forall processed,
  binned.1 <> [] -> length binned.1 <= length binned.2 ->
  exists out, for_wanted_freqs binned wanted_freqs processed = Return out.
Proof.
  induction wanted_freqs as [|freq rest IH]; intros processed Hne Hlen; simpl.
  - by eexists.
  - destruct (find_nearest_returns binned.1 freq Hne)
      as (index & found & -> & Hindex).
    cbn [mbind result_bind fst]. unfold getitem.
    destruct (lookup_lt_is_Some_2 binned.2 index) as [value ->]; [lia|].
    simpl. by apply IH.
Qed.

Lemma for_config_returns self data osr items : forall processed,
  Forall (fun item : string * band => bins_present osr data item.2) items ->
  exists out, for_config self data osr items processed = Return out.
Proof.
  induction items as [|[name value] items IH]; intros processed Hbins; simpl.
  - by eexists.
  - apply Forall_cons in Hbins as [(resampled & Hres & Hne & Hlen) Hbins].
    simpl in Hres, Hne, Hlen.
    unfold Audio.for_band. rewrite Hres. cbn [mbind result_bind].
    destruct (for_wanted_freqs_returns _
                (list_items_in_between (piano_keys_frequencies self)
                   (start_freq value) (end_freq value))
                processed Hne Hlen) as [out ->].
    simpl. by apply IH.
Qed.

Lemma for_audio_slice_returns self items osr channels : forall processed,
  config self = Some items ->
  Forall (fun data =>
            Forall (fun item : string * band => bins_present osr data item.2)
              items) channels ->
  exists out, for_audio_slice self channels osr processed = Return out.
Proof.
  intros processed Hconfig. revert processed.
  induction channels as [|data channels IH]; intros processed Hbins; simpl.
  - by eexists.
  - apply Forall_cons in Hbins as [Hdata Hbins].
    unfold config_items. rewrite Hconfig. cbn [mbind result_bind].
    destruct (for_config_returns self data osr items processed Hdata) as [out ->].
    simpl. by apply IH.
Qed.

(** On a batch of at least two channels, with a configuration and with
    bins for every channel and band, the analysis runs to its end: it
    raises nothing and yields its [fft] sequence. *)
Theorem analysis_yields_fft (self : AudioProcessing)
    (items : list (string * band)) (audio_slice : list (list Qc))
    (original_sample_rate : Z) :
  config self = Some items ->
  2 <= length audio_slice ->
  Forall (fun data =>
            Forall (fun item : string * band =>
                      bins_present original_sample_rate data item.2) items)
    audio_slice ->
  raised (get_info_on_audio_slice self audio_slice original_sample_rate) = None /\
  exists fft : list Qc,
    info (get_info_on_audio_slice self audio_slice original_sample_rate) "fft"
      = Some (NdArray fft).
Proof.
  intros Hconfig Hrows Hbins.
  destruct audio_slice as [|channel0 [|channel1 more]]; [simpl in Hrows; lia.. |].
  destruct (for_audio_slice_returns self items original_sample_rate
              (channel0 :: channel1 :: more) [] Hconfig Hbins) as [out Hout].
  unfold Audio.get_info_on_audio_slice.
  cbn [getitem lookup list_lookup mbind result_bind].
  rewrite Hout. split; [done|]. by exists out.
Qed.








Lemma np_add_0_l (a : npfloat) : np_add (Num 0%Qc) a = a.
Proof. destruct a as [q|]; simpl; [|done]. by rewrite Qcplus_0_l. Qed.

(** C2, as the code has it: the left and right amplitudes are the medians
    of the absolute samples, the third one is half the sum of those two
    medians (no median of the mono signal is taken), and all three are
    rounded to 8 decimals. *)
Theorem average_amplitudes_of_stereo (self : AudioProcessing)
    (channel0 channel1 : list Qc) (more : list (list Qc))
    (original_sample_rate : Z) :
  info (get_info_on_audio_slice self (channel0 :: channel1 :: more)
          original_sample_rate) "average_amplitudes" =
  Some (Tuple
    [py_round (np_median (np_abs channel0)) 8;
     py_round (np_median (np_abs channel1)) 8;
     py_round (np_div (np_add (np_median (np_abs channel0))
                              (np_median (np_abs channel1))) 2%Qc) 8]).
Proof.
  unfold Audio.get_info_on_audio_slice.
  cbn [getitem lookup list_lookup mbind result_bind].
  unfold py_sum. cbn [fold_left app map]. rewrite np_add_0_l.
  destruct (for_audio_slice self _ original_sample_rate []); reflexivity.
Qed.

(** C7.  [resample] with the new sample rate equal to the original one
    returns its input as it is. *)
Theorem resample_same_rate_is_identity (data : list Qc) (rate : Z) :
  resample data rate rate = Return data.
Proof. unfold Audio.resample. by rewrite decide_True. Qed.

End Externals.

End AudioProofs.

(** * The analysis on concrete batches *)

Module AudioExamples.
Import Audio.

(** C2 as stated fails: on a batch whose right channel mirrors the left one
    the mono signal is silent and the median of its absolute values is 0,
    while the third amplitude the analysis yields is 5/2, the mean of the
    two channel medians. *)
Lemma mono_amplitude_is_not_the_mono_median :
  info (StandIn.get_info_on_audio_slice StandIn.two_bands StandIn.out_of_phase
          1000) "average_amplitudes"
    = Some (Tuple [Num (Q2Qc (Qmake 5 2)); Num (Q2Qc (Qmake 5 2));
                   Num (Q2Qc (Qmake 5 2))]) /\
  np_median (np_abs (mono_of [Qc_of_Z 1; Qc_of_Z 2; Qc_of_Z 3; Qc_of_Z 4]
                       [Qc_of_Z (-1); Qc_of_Z (-2); Qc_of_Z (-3); Qc_of_Z (-4)]))
    = Num 0%Qc /\
  Num (Q2Qc (Qmake 5 2)) <> Num 0%Qc.
Proof. split_and!; compute_done. Qed.

(** C3 as stated fails: with two bands of one note each, the sequence the
    analysis yields is left-bass, left-mid, right-bass, right-mid; grouped
    by band first it would be left-bass, right-bass, left-mid, right-mid. *)
Lemma fft_is_not_grouped_by_band :
  info (StandIn.get_info_on_audio_slice StandIn.two_bands StandIn.four_samples
          1000) "fft"
    = Some (NdArray [Q2Qc (Qmake 92 111); Q2Qc (Qmake 4703 2775);
                     Q2Qc (Qmake 460 111); Q2Qc (Qmake 4703 925)]) /\
  band_major StandIn.samplerate_resample StandIn.binned_fft
      StandIn.value_on_line_of_two_points StandIn.two_bands
      StandIn.four_samples 1000
    = Return [Q2Qc (Qmake 92 111); Q2Qc (Qmake 460 111);
              Q2Qc (Qmake 4703 2775); Q2Qc (Qmake 4703 925)] /\
  [Q2Qc (Qmake 92 111); Q2Qc (Qmake 4703 2775);
   Q2Qc (Qmake 460 111); Q2Qc (Qmake 4703 925)]
    <> [Q2Qc (Qmake 92 111); Q2Qc (Qmake 460 111);
        Q2Qc (Qmake 4703 2775); Q2Qc (Qmake 4703 925)].
Proof. split_and!; compute_done. Qed.


Lemma fft_length_fixed_by_config_witness :
  length [Q2Qc (Qmake 92 111); Q2Qc (Qmake 4703 2775);
          Q2Qc (Qmake 460 111); Q2Qc (Qmake 4703 925)]
  = length StandIn.four_samples *
    wanted_count StandIn.two_bands
      [("bass", mkBand 1000 (Qc_of_Z 43) (Qc_of_Z 44));
       ("mid", mkBand 1000 (Qc_of_Z 109) (Qc_of_Z 111))].
Proof.
  apply (AudioProofs.fft_length_fixed_by_config StandIn.np_std
           StandIn.samplerate_resample StandIn.binned_fft
           StandIn.value_on_line_of_two_points StandIn.two_bands _
           StandIn.four_samples 1000).
  - reflexivity.
  - compute_done.
Defined.

Lemma analysis_yields_fft_witness :
  raised (StandIn.get_info_on_audio_slice StandIn.two_bands StandIn.four_samples
            1000) = None /\
  exists fft : list Qc,
    info (StandIn.get_info_on_audio_slice StandIn.two_bands StandIn.four_samples
            1000) "fft" = Some (NdArray fft).
Proof.
  apply (AudioProofs.analysis_yields_fft StandIn.np_std
           StandIn.samplerate_resample StandIn.binned_fft
           StandIn.value_on_line_of_two_points StandIn.two_bands
           [("bass", mkBand 1000 (Qc_of_Z 43) (Qc_of_Z 44));
            ("mid", mkBand 1000 (Qc_of_Z 109) (Qc_of_Z 111))]
           StandIn.four_samples 1000).
  - reflexivity.
  - simpl. lia.
  - repeat (apply List.Forall_cons || apply List.Forall_nil);
      (eexists; split; [vm_compute; reflexivity|];
       split; [discriminate | simpl; lia]).
Defined.

End AudioExamples.

(** * Properties of the audio slicing *)

Module SlicingProofs.
Import Audio SkiaCore.

(** A slice that starts inside or past the sequence and runs forward. *)
Lemma py_slice_forward {A : Type} (l : list A) (start size : Z) :
  (0 <= start)%Z -> (0 <= size)%Z ->
  py_slice l start (start + size) = take (Z.to_nat size) (drop (Z.to_nat start) l).
Proof.
  intros Hstart Hsize. unfold py_slice.
  destruct (Z.ltb_spec start 0) as [|_]; [lia|].
  destruct (Z.ltb_spec (start + size) 0) as [|_]; [lia|].
  destruct (Z.le_gt_cases (Z.of_nat (length l)) start) as [Hpast|Hin].
  - rewrite !Z.min_r by lia. rewrite Z.sub_diag. simpl.
    rewrite (drop_ge l (Z.to_nat start)) by lia. by rewrite take_nil.
  - rewrite (Z.min_l start) by lia.
    destruct (Z.le_gt_cases (start + size) (Z.of_nat (length l))) as [Hfit|Hover].
    + rewrite Z.min_l by lia. f_equal. lia.
    + rewrite Z.min_r by lia.
      rewrite !take_ge; [done | |]; rewrite length_drop; lia.
Qed.

Lemma window_length (start size : nat) (channel : list Qc) :
  length (window start size channel) <= size.
Proof. unfold window. rewrite length_take. lia. Qed.


(** Writing a slice no longer than the row at the front of a row of zeros. *)
Lemma assign_prefix_zeros (size : nat) (samples : list Qc) :
  length samples <= size ->
  assign_prefix (replicate size 0%Qc) samples = Return (zero_padded size samples).
Proof.
  intros Hle. unfold assign_prefix, zero_padded.
  rewrite length_replicate, decide_True by done.
  by rewrite drop_replicate.
Qed.



(** [slice_audio] called as the main loop calls it: a start that is not
    negative, an end [batch_size] samples later. *)
Lemma slice_audio_zero_padded (channel0 channel1 : list Qc)
    (more : list (list Qc)) (mono_data : list Qc) (sample_rate start size : Z) :
  (0 <= start)%Z -> (0 <= size)%Z ->
  slice_audio (channel0 :: channel1 :: more) mono_data sample_rate
    start (start + size) (Some size) =
  Return ([zero_padded (Z.to_nat size) (window (Z.to_nat start) (Z.to_nat size) channel0);
           zero_padded (Z.to_nat size) (window (Z.to_nat start) (Z.to_nat size) channel1);
           replicate (Z.to_nat size) 0%Qc],
          np_mean (np_abs (window (Z.to_nat start) (Z.to_nat size) mono_data))).
Proof.
  intros Hstart Hsize. unfold slice_audio.
  cbn [getitem lookup list_lookup mbind result_bind].
  destruct (Z.ltb_spec size 0) as [|_]; [lia|].
  rewrite !py_slice_forward by done. fold (window (Z.to_nat start) (Z.to_nat size) channel0).
  fold (window (Z.to_nat start) (Z.to_nat size) channel1).
  fold (window (Z.to_nat start) (Z.to_nat size) mono_data).
  rewrite !assign_prefix_zeros by apply window_length. done.
Qed.

(** A slice that starts at or past the end of the track is silence of the
    full batch size. *)
Theorem slice_audio_past_the_end (channel0 channel1 : list Qc)
    (more : list (list Qc)) (mono_data : list Qc) (sample_rate start size : Z) :
  (Z.of_nat (length channel0) <= start)%Z ->
  (Z.of_nat (length channel1) <= start)%Z ->
  (0 <= size)%Z ->
  exists average_value : npfloat,
    slice_audio (channel0 :: channel1 :: more) mono_data sample_rate
      start (start + size) (Some size) =
    Return ([replicate (Z.to_nat size) 0%Qc; replicate (Z.to_nat size) 0%Qc;
             replicate (Z.to_nat size) 0%Qc], average_value).
Proof.
  intros H0 H1 Hsize. eexists.
  rewrite slice_audio_zero_padded by lia.
  unfold zero_padded, window.
  rewrite !drop_ge by lia. rewrite !take_nil. simpl.
  rewrite Nat.sub_0_r. reflexivity.
Qed.

Lemma slice_audio_past_the_end_witness :
  exists average_value : npfloat,
    slice_audio ([Qc_of_Z 1; Qc_of_Z 2] :: [Qc_of_Z 3; Qc_of_Z 4] :: [])
      [Qc_of_Z 2; Qc_of_Z 3] 48000 5 (5 + 3) (Some 3%Z) =
    Return ([replicate (Z.to_nat 3) 0%Qc; replicate (Z.to_nat 3) 0%Qc;
             replicate (Z.to_nat 3) 0%Qc], average_value).
Proof.
  apply (slice_audio_past_the_end [Qc_of_Z 1; Qc_of_Z 2] [Qc_of_Z 3; Qc_of_Z 4]
           [] [Qc_of_Z 2; Qc_of_Z 3] 48000 5 3); simpl; lia.
Defined.



End SlicingProofs.

(** * Properties of the render loop *)

Module RenderLoopProofs.
Import FramePipe FramePipeInvariant RenderLoop.

Lemma seq_indices_S (k : nat) (i : Z) :
  i ∈ Z.of_nat k :: (Z.of_nat <$> seq 0 k) <-> i ∈ Z.of_nat <$> seq 0 (S k).
Proof.
  rewrite seq_S, fmap_app. simpl. set_solver.
Qed.

Lemma elem_of_seq_indices (k : nat) (i : Z) :
  i ∈ Z.of_nat <$> seq 0 k <-> (0 <= i < Z.of_nat k)%Z.
Proof.
  rewrite list_elem_of_fmap. split.
  - intros (j & -> & Hj). apply elem_of_seq in Hj. lia.
  - intros Hi. exists (Z.to_nat i). split; [lia|]. apply elem_of_seq. lia.
Qed.

(** With every frame handed over, an empty buffer means every frame is
    written. *)
Lemma drained_is_written n next_image w :
  pipe_inv n next_image (Z.of_nat <$> seq 0 n) w ->
  images_to_pipe w = ∅ -> frames_written w = n.
Proof.
  intros (Hc & Hn & Hl & Hout & Hbuf & Hsub & Hrange & Hend) Hempty.
  destruct (decide (frames_written w < n)) as [Hlt|Hge]; [|lia].
  exfalso. specialize (Hbuf (Z.of_nat (frames_written w))).
  rewrite Hempty, lookup_empty in Hbuf.
  rewrite decide_True in Hbuf; [done|].
  split; [|lia]. apply elem_of_seq_indices. lia.
Qed.

(** With every frame written the buffer is empty. *)
Lemma written_is_drained n next_image indices w :
  pipe_inv n next_image indices w ->
  frames_written w = n -> images_to_pipe w = ∅.
Proof.
  intros (Hc & Hn & Hl & Hout & Hbuf & Hsub & Hrange & Hend) Hfull.
  apply map_eq. intros i. rewrite lookup_empty, Hbuf.
  rewrite decide_False; [done|]. intros [Hin Hle].
  rewrite Forall_forall in Hrange. apply Hrange in Hin. lia.
Qed.

Lemma render_inv_start n next_image max_images :
  render_inv n next_image (render_start max_images).
Proof.
  unfold render_inv, render_start. simpl. split_and!; try done; try lia.
  apply FramePipeProofs.pipe_inv_start.
Qed.

(** A step of the main thread keeps the invariant, and changes nothing or
    brings the end nearer. *)
Lemma render_inv_main n next_image r :
  render_inv n next_image r ->
  let r' := main_step (Z.of_nat n) next_image r in
  render_inv n next_image r' /\ (r' = r \/ steps_left n r' < steps_left n r).
Proof.
  intros (Hpipe & Hmain & Hclosed & Hexited).
  destruct r as [w pc]. unfold main_step. simpl in *.
  destruct pc as [step| |]; simpl in *.
  - destruct (Z.ltb_spec step (Z.of_nat n)) as [Hlt|Hge].
    + destruct (write_to_pipe w step (next_image step)) as [[w'|e]|] eqn:Hw;
        [|split; [done | by left] ..].
      assert (Hstep : step = Z.of_nat (Z.to_nat step)) by lia.
      assert (Hinv : pipe_inv n next_image
                       (step :: (Z.of_nat <$> seq 0 (Z.to_nat step))) w').
      { apply (FramePipeProofs.pipe_inv_submit n next_image _ w); try done.
        - rewrite elem_of_seq_indices. lia.
        - lia. }
      assert (Hsame : writer w' = writer w /\ stdin_closed w' = stdin_closed w
                      /\ stop_piping w' = stop_piping w /\ count w' = count w).
      { unfold write_to_pipe in Hw. destruct (too_many_images w); [done|].
        by injection Hw as <-. }
      destruct Hsame as (Hwr & Hcl & Hst & Hcnt).
      split.
      * unfold render_inv. simpl. split; [|split; [|split]].
        -- eapply FramePipeProofs.pipe_inv_same_indices; [|apply Hinv].
           intros i. replace (Z.to_nat (step + 1)) with (S (Z.to_nat step)) by lia.
           rewrite Hstep at 1. apply seq_indices_S.
        -- lia.
        -- by rewrite Hwr, Hcl.
        -- by rewrite Hwr, Hcl, Hst.
      * right. unfold steps_left. simpl. rewrite Hwr, Hst, Hcnt.
        replace (Z.to_nat (step + 1)) with (S (Z.to_nat step)) by lia. lia.
    + assert (Z.to_nat step = n) by lia. split.
      * unfold render_inv. simpl. split_and!; try done. by subst n.
      * right. unfold steps_left. simpl. lia.
  - unfold close_pipe.
    destruct (bool_decide (images_to_pipe w = ∅) && negb (lock_writing w))
      eqn:Hready; [|split; [done | by left]].
    apply andb_true_iff in Hready as [Hempty _].
    apply bool_decide_eq_true in Hempty.
    pose proof (drained_is_written n next_image w Hpipe Hempty) as Hfull.
    split.
    + unfold render_inv. simpl. split_and!; try done.
      * destruct Hpipe as (Hc & Hn & Hl & Hout & Hbuf & Hsub & Hrange & Hend).
        unfold pipe_inv, frames_written in *. simpl. split_and!; done.
      * intros Hex. split; [by apply Hexited | done].
    + right. unfold steps_left. simpl.
      destruct (writer w) eqn:Hwr; [|lia..].
      destruct (stop_piping w); lia.
  - split; [done | by left].
Qed.

(** The same for a polling step of the writer. *)
Lemma render_inv_writer n next_image r :
  render_inv n next_image r ->
  let r' := writer_step (Z.of_nat n) r in
  render_inv n next_image r' /\ (r' = r \/ steps_left n r' < steps_left n r).
Proof.
  intros (Hpipe & Hmain & Hclosed & Hexited).
  destruct (FramePipeProofs.pipe_inv_writer _ _ _ _ Hpipe) as (Hpipe' & _ & _).
  destruct r as [w pc]. unfold writer_step. simpl in *.
  destruct Hpipe as (Hc & Hn & Hl & Hout & Hbuf & Hsub & Hrange & Hend).
  destruct w as [buf stop lock mx cnt out closed wpc].
  unfold render_inv, steps_left, frames_written in *.
  unfold pipe_writer_iteration in *. simpl in *.
  destruct wpc; simpl in *.
  - assert (Hopen : closed = false).
    { destruct closed; [by specialize (Hclosed eq_refl) | done]. }
    subst closed.
    destruct stop; simpl in *.
    { split; [split_and!; try done; by destruct pc | right; lia]. }
    assert (Hrender : match pc with
                      | PipeClosed => False
                      | _ => True
                      end) by (by destruct pc).
    destruct (buf !! cnt) as [img|] eqn:Hlook; simpl in *;
      [|split; [done | by left]].
    assert (Hlt : (0 <= cnt < Z.of_nat n)%Z).
    { rewrite Hbuf in Hlook.
      destruct (decide _) as [[Hin _]|]; [|done].
      rewrite Forall_forall in Hrange. by apply Hrange. }
    destruct (Z.eqb_spec cnt (Z.of_nat n - 1)) as [Hlast|Hmore]; simpl in *.
    + split; [split_and!; try done | right; lia].
    + split; [split_and!; try done | right].
      replace (Z.to_nat (cnt + 1)) with (S (Z.to_nat cnt)) by lia. lia.
  - assert (Hopen : closed = false).
    { destruct closed; [by specialize (Hclosed eq_refl) | done]. }
    subst closed.
    destruct (bool_decide (buf = ∅) && negb lock) eqn:Hready; simpl in *.
    + split; [split_and!; try done; by destruct pc | right; lia].
    + split; [done | by left].
  - split; [done | by left].
Qed.

Lemma render_inv_turn n next_image r t :
  render_inv n next_image r ->
  let r' := turn (Z.of_nat n) next_image r t in
  render_inv n next_image r' /\ (r' = r \/ steps_left n r' < steps_left n r).
Proof.
  destruct t; [apply render_inv_main | apply render_inv_writer].
Qed.

Lemma render_inv_run n next_image turns : forall r,
  render_inv n next_image r ->
  render_inv n next_image (run_threads (Z.of_nat n) next_image turns r) /\
  steps_left n (run_threads (Z.of_nat n) next_image turns r) <= steps_left n r.
Proof.
  unfold run_threads.
  induction turns as [|t turns IH]; intros r Hinv; simpl; [done|].
  destruct (render_inv_turn n next_image r t Hinv) as (Hinv' & Hstep).
  destruct (IH _ Hinv') as (Hfin & Hle). split; [done|].
  destruct Hstep as [Heq|Hlt]; [|lia].
  etrans; [exact Hle|]. by rewrite Heq.
Qed.

(** No step touches the bound of the buffer. *)
Lemma turn_keeps_bound total_steps next_image r t :
  max_images_on_pipe_buffer (pipe_video_to (turn total_steps next_image r t))
  = max_images_on_pipe_buffer (pipe_video_to r).
Proof.
  destruct r as [w pc], t; unfold turn, main_step, writer_step; simpl.
  - destruct pc as [step| |]; simpl; [| |done].
    + destruct (step <? total_steps)%Z; [|done].
      unfold write_to_pipe. by destruct (too_many_images w).
    + unfold close_pipe. by destruct (_ && _).
  - unfold pipe_writer_iteration.
    destruct (writer w); [| |done].
    + destruct (stop_piping w); [done|].
      destruct (images_to_pipe w !! count w); [|done].
      by destruct (count w =? total_steps - 1)%Z.
    + by destruct (_ && _).
Qed.

Lemma run_keeps_bound total_steps next_image turns : forall r,
  max_images_on_pipe_buffer
    (pipe_video_to (run_threads total_steps next_image turns r))
  = max_images_on_pipe_buffer (pipe_video_to r).
Proof.
  unfold run_threads. induction turns as [|t turns IH]; intros r; simpl; [done|].
  by rewrite IH, turn_keeps_bound.
Qed.

(** With room for one frame, a state in which neither thread can move is
    the end of the render. *)
Lemma stuck_is_finished n next_image r :
  render_inv n next_image r ->
  (1 <= max_images_on_pipe_buffer (pipe_video_to r))%Z ->
  main_step (Z.of_nat n) next_image r = r ->
  writer_step (Z.of_nat n) r = r ->
  finished r.
Proof.
  intros (Hpipe & Hmain & Hclosed & Hexited) Hmax Hm Hw.
  pose proof Hpipe as (Hc & Hn & Hl & Hout & Hbuf & Hsub & Hrange & Hend).
  destruct r as [w pc]. unfold main_step, writer_step, finished in *.
  simpl in *.
  (* the buffer holds the next frame whenever it holds any *)
  assert (Hnext : images_to_pipe w <> ∅ ->
                  writer w = InLoop /\ stop_piping w = false /\
                  is_Some (images_to_pipe w !! count w)).
  { intros Hne. apply map_choose in Hne as (i & img & Hi).
    rewrite Hbuf in Hi.
    destruct (decide _) as [[Hin Hle]|]; [|done].
    rewrite Forall_forall in Hrange. pose proof (Hrange _ Hin) as Hi_n.
    assert (Hfw : frames_written w < n) by lia.
    assert (Hloop : writer w = InLoop /\ stop_piping w = false).
    { destruct (writer w) eqn:Hwr, (stop_piping w) eqn:Hst; try done;
        exfalso; assert (frames_written w = n) by (apply Hend; auto); lia. }
    destruct Hloop as [Hwr Hst]. split_and!; try done.
    assert (Hcnt : Z.of_nat (frames_written w) = count w).
    { unfold frames_written. rewrite Hwr. lia. }
    rewrite Hbuf, <- Hcnt. rewrite decide_True; [done|].
    split; [|lia]. rewrite elem_of_seq_indices.
    apply elem_of_seq_indices in Hin. lia. }
  (* a writer that does not move with an empty buffer *)
  assert (Hstill : pipe_writer_iteration (Z.of_nat n) w = w ->
            is_Some (images_to_pipe w !! count w) ->
            writer w = InLoop -> stop_piping w = false -> False).
  { intros Hit [img Himg] Hwr Hst.
    unfold pipe_writer_iteration in Hit. rewrite Hwr, Hst in Hit.
    destruct (images_to_pipe w !! count w) as [img'|] eqn:Hlook in Hit.
    2:{ pose proof (eq_trans (eq_sym Hlook) Himg) as Hno. discriminate Hno. }
    destruct (count w =? Z.of_nat n - 1)%Z.
    - apply (f_equal writer) in Hit. simpl in Hit. congruence.
    - apply (f_equal count) in Hit. simpl in Hit. lia. }
  assert (Hwi : pipe_writer_iteration (Z.of_nat n) w = w).
  { by injection Hw. }
  assert (Hempty : images_to_pipe w = ∅).
  { destruct (decide (images_to_pipe w = ∅)) as [|Hne]; [done|].
    destruct (Hnext Hne) as (Hwr & Hst & Hsome).
    exfalso. by apply Hstill. }
  destruct pc as [step| |]; simpl in *.
  - destruct (Z.ltb_spec step (Z.of_nat n)) as [Hlt|Hge]; [|done].
    unfold write_to_pipe, too_many_images in Hm.
    rewrite Hempty, map_size_empty in Hm.
    destruct (Z.leb_spec (max_images_on_pipe_buffer w) (Z.of_nat 0)); [lia|].
    apply (f_equal main) in Hm. simpl in Hm. injection Hm as Hm. lia.
  - unfold close_pipe in Hm. rewrite Hl in Hm.
    rewrite bool_decide_eq_true_2 in Hm by done. simpl in Hm. done.
  - assert (Hfull : frames_written w = n) by auto.
    unfold pipe_writer_iteration in Hwi.
    destruct (writer w) eqn:Hwr.
    + rewrite Hmain in Hwi. apply (f_equal writer) in Hwi. simpl in Hwi.
      congruence.
    + rewrite Hl in Hwi. rewrite bool_decide_eq_true_2 in Hwi by done.
      simpl in Hwi. apply (f_equal writer) in Hwi. simpl in Hwi. congruence.
    + split_and!; try done. by apply Hexited.
Qed.

Lemma run_threads_cons total_steps next_image t turns r :
  run_threads total_steps next_image (t :: turns) r =
  run_threads total_steps next_image turns (turn total_steps next_image r t).
Proof. done. Qed.

Lemma alternating_S rounds :
  alternating (S rounds) = MainThread :: WriterThread :: alternating rounds.
Proof. done. Qed.

(** Taking turns, the threads finish within [steps_left] rounds. *)
Lemma alternating_finishes n next_image : forall rounds r,
  render_inv n next_image r ->
  (1 <= max_images_on_pipe_buffer (pipe_video_to r))%Z ->
  steps_left n r <= rounds ->
  finished (run_threads (Z.of_nat n) next_image (alternating rounds) r).
Proof.
  induction rounds as [|rounds IH]; intros r Hinv Hmax Hleft.
  - simpl. destruct Hinv as (Hpipe & Hmain & Hclosed & Hexited).
    unfold steps_left, finished in *.
    destruct (main r); [lia | lia |].
    destruct (writer (pipe_video_to r)) eqn:Hwr; [|lia|].
    + destruct (stop_piping (pipe_video_to r)); lia.
    + split_and!; try done. by apply Hexited.
  - rewrite alternating_S, !run_threads_cons. cbn [turn].
    destruct (render_inv_main n next_image r Hinv) as (Hinv1 & Hstep1).
    destruct (render_inv_writer n next_image _ Hinv1) as (Hinv2 & Hstep2).
    cbv zeta in Hinv2, Hstep1, Hstep2.
    pose proof (turn_keeps_bound (Z.of_nat n) next_image r MainThread) as Hb1.
    pose proof (turn_keeps_bound (Z.of_nat n) next_image
                  (main_step (Z.of_nat n) next_image r) WriterThread) as Hb2.
    cbn [turn] in Hb1, Hb2.
    apply IH; [done | lia |].
    destruct Hstep1 as [Heq1|Hlt1]; [|destruct Hstep2 as [Heq2|Hlt2]].
    + rewrite Heq1 in *. destruct Hstep2 as [Heq2|Hlt2]; [|lia].
      rewrite Heq2.
      pose proof (stuck_is_finished n next_image r Hinv Hmax Heq1 Heq2)
        as (Hm & Hw & _).
      unfold steps_left. rewrite Hm, Hw. lia.
    + rewrite Heq2. lia.
    + lia.
Qed.


(** The render ends with every frame written.  Whatever the turns the two
    threads take, stdin holds the first frames in index order, and once the
    main thread is past [close_pipe()], or stdin is closed, it holds all
    [n] of them. *)
Theorem render_ends_with_every_frame_written (n : nat) (next_image : Z -> image)
    (max_images : Z) (turns : list thread) :
  (exists c : nat,
      (c <= n) /\
      (stdin (pipe_video_to (run_threads (Z.of_nat n) next_image turns
                               (render_start max_images)))
       = in_order next_image c)) /\
  (main (run_threads (Z.of_nat n) next_image turns (render_start max_images))
     = PipeClosed \/
   stdin_closed (pipe_video_to (run_threads (Z.of_nat n) next_image turns
                                  (render_start max_images))) = true ->
   stdin (pipe_video_to (run_threads (Z.of_nat n) next_image turns
                           (render_start max_images)))
   = in_order next_image n).
Proof.
  destruct (render_inv_run n next_image turns (render_start max_images)
              (render_inv_start n next_image max_images))
    as ((Hpipe & Hmain & Hclosed & Hexited) & _).
  destruct Hpipe as (Hc & Hn & Hl & Hout & Hbuf & Hsub & Hrange & Hend).
  split; [by eexists|].
  intros Hdone. rewrite Hout. f_equal. apply Hend.
  destruct Hdone as [Hpc|Hcl].
  - left. by rewrite Hpc in Hmain.
  - right. rewrite (Hclosed Hcl). done.
Qed.

(** With room for at least one frame the render cannot hang: in every
    state the threads can reach, either both are through or a step of one
    of them changes the state. *)
Theorem render_never_deadlocks (n : nat) (next_image : Z -> image)
    (max_images : Z) (turns : list thread) :
  (1 <= max_images)%Z ->
  finished (run_threads (Z.of_nat n) next_image turns (render_start max_images))
  \/ main_step (Z.of_nat n) next_image
       (run_threads (Z.of_nat n) next_image turns (render_start max_images))
     <> run_threads (Z.of_nat n) next_image turns (render_start max_images)
  \/ writer_step (Z.of_nat n)
       (run_threads (Z.of_nat n) next_image turns (render_start max_images))
     <> run_threads (Z.of_nat n) next_image turns (render_start max_images).
Proof.
  intros Hmax.
  pose proof (run_keeps_bound (Z.of_nat n) next_image turns
                (render_start max_images)) as Hbound.
  destruct (render_inv_run n next_image turns (render_start max_images)
              (render_inv_start n next_image max_images)) as (Hinv & _).
  set (r := run_threads (Z.of_nat n) next_image turns (render_start max_images))
    in *.
  destruct (render_inv_main n next_image r Hinv) as (_ & [Hm|Hm]).
  - destruct (render_inv_writer n next_image r Hinv) as (_ & [Hw|Hw]).
    + left. apply (stuck_is_finished n next_image); try done.
      rewrite Hbound. done.
    + right. right. intros Heq. rewrite Heq in Hw. lia.
  - right. left. intros Heq. rewrite Heq in Hm. lia.
Qed.

Lemma render_never_deadlocks_witness :
  finished (run_threads 4 four_payloads [MainThread; MainThread; WriterThread]
              (render_start 1))
  \/ main_step 4 four_payloads
       (run_threads 4 four_payloads [MainThread; MainThread; WriterThread]
          (render_start 1))
     <> run_threads 4 four_payloads [MainThread; MainThread; WriterThread]
          (render_start 1)
  \/ writer_step 4
       (run_threads 4 four_payloads [MainThread; MainThread; WriterThread]
          (render_start 1))
     <> run_threads 4 four_payloads [MainThread; MainThread; WriterThread]
          (render_start 1).
Proof.
  apply (render_never_deadlocks 4 four_payloads 1
           [MainThread; MainThread; WriterThread]).
  lia.
Defined.

(** With room for at least one frame, the two threads taking turns finish
    the render of [n] frames within [2 * n + 4] rounds: the main thread is
    past [close_pipe()], the writer has closed stdin, and stdin holds the
    frames [0 .. n-1] in order. *)
Theorem render_finishes_in_turns (n : nat) (next_image : Z -> image)
    (max_images : Z) (rounds : nat) :
  (1 <= max_images)%Z ->
  2 * n + 4 <= rounds ->
  finished (run_threads (Z.of_nat n) next_image (alternating rounds)
              (render_start max_images)) /\
  stdin (pipe_video_to (run_threads (Z.of_nat n) next_image (alternating rounds)
                          (render_start max_images)))
  = in_order next_image n.
Proof.
  intros Hmax Hrounds.
  assert (Hfin : finished (run_threads (Z.of_nat n) next_image
                             (alternating rounds) (render_start max_images))).
  { apply alternating_finishes.
    - apply render_inv_start.
    - done.
    - unfold steps_left, render_start. simpl. lia. }
  split; [done|].
  destruct (render_inv_run n next_image (alternating rounds)
              (render_start max_images)
              (render_inv_start n next_image max_images))
    as ((Hpipe & _) & _).
  destruct Hpipe as (Hc & Hn & Hl & Hout & Hbuf & Hsub & Hrange & Hend).
  destruct Hfin as (_ & Hw & _).
  rewrite Hout. f_equal. apply Hend. right. by rewrite Hw.
Qed.

Lemma render_finishes_in_turns_witness :
  finished (run_threads 4 four_payloads (alternating 12) (render_start 1)) /\
  stdin (pipe_video_to (run_threads 4 four_payloads (alternating 12)
                          (render_start 1)))
  = in_order four_payloads 4.
Proof.
  apply (render_finishes_in_turns 4 four_payloads 1 12); lia.
Defined.

(** Without room for a frame the render hangs at its first frame: with
    [max_images_on_pipe_buffer] at 0 or below, [write_to_pipe] never gets
    out of its wait loop and no step of either thread changes anything. *)
Theorem render_hangs_without_room (n : nat) (next_image : Z -> image)
    (max_images : Z) (turns : list thread) :
  (max_images <= 0)%Z ->
  0 < n ->
  run_threads (Z.of_nat n) next_image turns (render_start max_images)
  = render_start max_images.
Proof.
  intros Hmax Hn. unfold run_threads.
  induction turns as [|t turns IH]; simpl; [done|].
  assert (Hturn : turn (Z.of_nat n) next_image (render_start max_images) t
                  = render_start max_images).
  { destruct t; unfold turn, main_step, writer_step, render_start; simpl.
    - destruct (Z.ltb_spec 0 (Z.of_nat n)) as [_|?]; [|lia].
      unfold write_to_pipe, too_many_images. simpl.
      rewrite map_size_empty.
      by destruct (Z.leb_spec max_images (Z.of_nat 0)) as [_|?]; [|lia].
    - done. }
  by rewrite Hturn.
Qed.

Lemma render_hangs_without_room_witness :
  run_threads 4 four_payloads (alternating 12) (render_start 0)
  = render_start 0.
Proof.
  apply (render_hangs_without_room 4 four_payloads 0 (alternating 12)); lia.
Defined.

End RenderLoopProofs.

(** * Properties of runs of the value interpolator *)

Module InterpolatorRunsProofs.
Import Interpolator InterpolatorRuns InterpolatorProofs.











(** [next] on a name that was never added raises [KeyError], in every
    mode and whatever is fed, and so does a run of calls that reaches such
    a call. *)
Theorem next_on_unknown_name_raises_KeyError
    (interpolaters : gmap string interpolater) (name : string)
    (feed : value) (mode : string) (calls : list (string * value * string)) :
  interpolaters !! name = None ->
  next interpolaters name feed mode = Raise "KeyError" /\
  nexts interpolaters ((name, feed, mode) :: calls) = Raise "KeyError".
Proof.
  intros Hmissing. pose proof (next_on_missing _ _ feed mode Hmissing) as Hnext.
  split; [done|]. simpl. by rewrite Hnext.
Qed.

Lemma next_on_unknown_name_raises_KeyError_witness :
  next slow_channel "mmv_rms_r" (Scalar 1%Qc) "fill" = Raise "KeyError" /\
  nexts slow_channel
    [("mmv_rms_r", Scalar 1%Qc, "fill"); ("mmv_fft", Scalar 1%Qc, "fill")]
  = Raise "KeyError".
Proof.
  apply (next_on_unknown_name_raises_KeyError slow_channel "mmv_rms_r"
           (Scalar 1%Qc) "fill" [("mmv_fft", Scalar 1%Qc, "fill")]).
  vm_compute; reflexivity.
Defined.










End InterpolatorRunsProofs.

(** * Properties of [AudioFile.read] and of the steps of the main loop *)

Module AudioFileReadProofs.
Import AudioFileRead SkiaCore SlicingProofs.

(** A file with fewer than two channels cannot be read: a mono file that
    comes back as a one-dimensional array fails at [shape[1]], and a
    two-dimensional array with one column or none at [stereo_data[1]] or
    [stereo_data[0]]; both raise [IndexError]. *)
Theorem read_needs_two_channels
    (soundfile_read audio2numpy_open_audio : result (ndarray * Z))
    (data : ndarray) (sample_rate : Z) :
  decoded soundfile_read audio2numpy_open_audio = Return (data, sample_rate) ->
  fewer_than_two_channels data ->
  sample_rate <> 0%Z ->
  read soundfile_read audio2numpy_open_audio = Raise "IndexError".
Proof.
  intros Hdec Hfew Hrate. unfold read. rewrite Hdec. simpl.
  destruct data as [samples|columns rows]; simpl; [done|].
  unfold true_divide. rewrite decide_False by done. simpl in *.
  destruct columns as [|[|columns]]; [done | done | lia].
Qed.

Lemma read_needs_two_channels_witness :
  read (Raise "RuntimeError")
    (Return (Array1 [Qc_of_Z 1; Qc_of_Z 2; Qc_of_Z 3], 44100%Z))
  = Raise "IndexError".
Proof.
  apply (read_needs_two_channels _ _ (Array1 [Qc_of_Z 1; Qc_of_Z 2; Qc_of_Z 3])
           44100).
  - reflexivity.
  - exact I.
  - lia.
Defined.












End AudioFileReadProofs.

(** * Properties of [AudioProcessing.process] *)

Module AudioProcessProofs.
Import Audio AudioProcess.

Lemma setitem_keys (d : dict) (key value : Qc) :
  (setitem d key value).*1 = if decide (key ∈ d.*1) then d.*1 else d.*1 ++ [key].
Proof.
  induction d as [|[k v] d IH].
  - destruct (decide (key ∈ ([] : dict).*1)) as [Hin|_]; [|done].
    by apply elem_of_nil in Hin.
  - cbn [setitem].
    destruct (decide (key ∈ ((k, v) :: d).*1)) as [Hin|Hout];
      destruct (decide (k = key)) as [Heq|Hne].
    + done.
    + rewrite fmap_cons, IH. cbn [fst].
      rewrite decide_True; [done|].
      rewrite fmap_cons in Hin. apply elem_of_cons in Hin as [Hin|Hin]; [|done].
      by symmetry in Hin.
    + exfalso. apply Hout. rewrite Heq. apply list_elem_of_here.
    + rewrite fmap_cons, IH. cbn [fst].
      rewrite decide_False; [done|].
      intros Hin. apply Hout. rewrite fmap_cons. by apply list_elem_of_further.
Qed.

Lemma setitem_NoDup (d : dict) (key value : Qc) :
  NoDup d.*1 -> NoDup (setitem d key value).*1.
Proof.
  intros Hd. rewrite setitem_keys.
  destruct (decide (key ∈ d.*1)) as [Hin|Hout]; [done|].
  apply NoDup_app. split_and!; [done | | apply NoDup_singleton].
  intros x Hx Hx'. apply list_elem_of_singleton in Hx'. by subst x.
Qed.

Lemma setitem_elem_of (d : dict) (key value x : Qc) :
  x ∈ (setitem d key value).*1 <-> x ∈ d.*1 \/ x = key.
Proof.
  rewrite setitem_keys. destruct (decide (key ∈ d.*1)) as [Hin|Hout].
  - split; [by left|]. intros [Hx|Hx]; [done | by rewrite Hx].
  - rewrite elem_of_app, list_elem_of_singleton. done.
Qed.

Section Externals.

Variable samplerate_resample : list Qc -> Qc -> list Qc.
Variable binned_fft : list Qc -> Z -> Z -> list Qc * list Qc.
Variable how_much_bars_on_this_frequency : Qc -> Qc -> Qc -> Qc.

Local Notation bars_for_wanted_freqs :=
  (bars_for_wanted_freqs how_much_bars_on_this_frequency).
Local Notation bars_for_band :=
  (bars_for_band samplerate_resample binned_fft how_much_bars_on_this_frequency).
Local Notation bars_for_config :=
  (bars_for_config samplerate_resample binned_fft how_much_bars_on_this_frequency).
Local Notation process :=
  (process samplerate_resample binned_fft how_much_bars_on_this_frequency).
Local Notation bin_plus_tenths :=
  (bin_plus_tenths samplerate_resample binned_fft).

(** What the loops keep: distinct keys, each of them of the form [P]
    allows, where the keys they add are a bin frequency plus tenths. *)
Lemma for_range_keeps (P : Qc -> Prop) (nearest_freq value : Qc) (N : Z) :
  forall processed : dict,
  (forall i : Z, (0 <= i)%Z -> P (nearest_freq + Qc_of_Z i / Qc_of_Z 10)%Qc) ->
  NoDup processed.*1 -> Forall P processed.*1 ->
  NoDup (for_range nearest_freq value N processed).*1 /\
  Forall P (for_range nearest_freq value N processed).*1.
Proof.
  unfold for_range, py_range. intros processed HP.
  generalize (seq 0 (Z.to_nat N)). intros l. revert processed.
  induction l as [|i l IH]; intros processed Hnodup Hall; simpl; [done|].
  apply IH.
  - by apply setitem_NoDup.
  - apply Forall_forall. intros x Hx. apply setitem_elem_of in Hx as [Hx| ->].
    + rewrite Forall_forall in Hall. by apply Hall.
    + apply HP. lia.
Qed.

Lemma find_nearest_elem_of (array : list Qc) (value : Qc) (nearest : nat * Qc) :
  find_nearest array value = Return nearest -> nearest.2 ∈ array.
Proof.
  unfold find_nearest. destruct (np_argmin _) as [index|e]; [|done]. simpl.
  unfold getitem. destruct (array !! index) as [found|] eqn:Hfound; [|done].
  simpl. intros [= <-]. simpl. by eapply list_elem_of_lookup_2.
Qed.

Lemma for_wanted_freqs_keeps (P : Qc -> Prop) self binned wanted_freqs :
  forall processed out : dict,
  (forall (bin : Qc) (i : Z), bin ∈ binned.1 -> (0 <= i)%Z ->
     P (bin + Qc_of_Z i / Qc_of_Z 10)%Qc) ->
  NoDup processed.*1 -> Forall P processed.*1 ->
  bars_for_wanted_freqs self binned wanted_freqs processed = Return out ->
  NoDup out.*1 /\ Forall P out.*1.
Proof.
  induction wanted_freqs as [|freq rest IH];
    intros processed out HP Hnodup Hall; simpl.
  - by intros [= <-].
  - destruct (find_nearest binned.1 freq) as [nearest|e] eqn:Hnear; [|done].
    simpl. destruct (getitem binned.2 nearest.1) as [value|e]; [|done]. simpl.
    apply find_nearest_elem_of in Hnear.
    edestruct (for_range_keeps P nearest.2 value) as [Hnodup' Hall'];
      [| exact Hnodup | exact Hall |].
    { intros i Hi. by apply HP. }
    by apply IH.
Qed.

Lemma for_config_keeps (P : Qc -> Prop) self data osr items :
  forall processed out : dict,
  (forall (item : string * band) (resampled : list Qc) (bin : Qc) (i : Z),
     item ∈ items ->
     resample samplerate_resample data osr (sample_rate item.2) = Return resampled ->
     bin ∈ (binned_fft resampled (sample_rate item.2) osr).1 -> (0 <= i)%Z ->
     P (bin + Qc_of_Z i / Qc_of_Z 10)%Qc) ->
  NoDup processed.*1 -> Forall P processed.*1 ->
  bars_for_config self data osr items processed = Return out ->
  NoDup out.*1 /\ Forall P out.*1.
Proof.
  induction items as [|[name value] items IH];
    intros processed out HP Hnodup Hall; simpl.
  - by intros [= <-].
  - destruct (bars_for_band self data osr value processed) as [processed'|e] eqn:Hband;
      [|done].
    simpl. unfold AudioProcess.bars_for_band in Hband.
    destruct (resample samplerate_resample data osr (sample_rate value))
      as [resampled|e] eqn:Hres; [|done].
    simpl in Hband.
    apply (for_wanted_freqs_keeps P) in Hband as [Hnodup' Hall']; try done.
    + apply IH; try done. intros item r bin i Hin. apply HP.
      by apply list_elem_of_further.
    + intros bin i Hbin Hi.
      apply (HP (name, value) resampled); try done. apply list_elem_of_here.
Qed.

(** [process] hands back two lists of one length, the FFT values and
    their frequencies, in which no frequency comes twice; every frequency
    is a bin frequency of the binned FFT of one of the bands, moved up by a
    whole number of tenths. *)
Theorem process_pairs_values_with_distinct_frequencies
    (self : self_process) (data : list Qc) (original_sample_rate : Z)
    (linear_processed_fft frequencies : list Qc) :
  process self data original_sample_rate
    = Return (linear_processed_fft, frequencies) ->
  length linear_processed_fft = length frequencies /\
  NoDup frequencies /\
  Forall (bin_plus_tenths self data original_sample_rate) frequencies.
Proof.
  unfold AudioProcess.process, config_items.
  destruct (config (processing self)) as [items|] eqn:Hconfig; [|done]. simpl.
  destruct (bars_for_config self data original_sample_rate items [])
    as [processed|e] eqn:Hrun; [|done].
  simpl. intros [= <- <-].
  split; [by rewrite !length_fmap|].
  apply (for_config_keeps (bin_plus_tenths self data original_sample_rate))
    in Hrun; [done | | apply NoDup_nil_2 | apply Forall_nil_2].
  intros item resampled bin i Hin Hres Hbin Hi.
  exists items, item, resampled, bin, i. done.
Qed.

End Externals.

Lemma process_pairs_values_with_distinct_frequencies_witness :
  length (default ([], []) (from_return
            (process StandIn.samplerate_resample StandIn.binned_fft
               a_bar_and_a_half two_bands_process
               [Qc_of_Z 1; Qc_of_Z 2; Qc_of_Z 3; Qc_of_Z 4] 1000))).1
  = length (default ([], []) (from_return
              (process StandIn.samplerate_resample StandIn.binned_fft
                 a_bar_and_a_half two_bands_process
                 [Qc_of_Z 1; Qc_of_Z 2; Qc_of_Z 3; Qc_of_Z 4] 1000))).2 /\
  NoDup (default ([], []) (from_return
           (process StandIn.samplerate_resample StandIn.binned_fft
              a_bar_and_a_half two_bands_process
              [Qc_of_Z 1; Qc_of_Z 2; Qc_of_Z 3; Qc_of_Z 4] 1000))).2 /\
  Forall (bin_plus_tenths StandIn.samplerate_resample StandIn.binned_fft
            two_bands_process [Qc_of_Z 1; Qc_of_Z 2; Qc_of_Z 3; Qc_of_Z 4] 1000)
    (default ([], []) (from_return
       (process StandIn.samplerate_resample StandIn.binned_fft
          a_bar_and_a_half two_bands_process
          [Qc_of_Z 1; Qc_of_Z 2; Qc_of_Z 3; Qc_of_Z 4] 1000))).2.
Proof.
  apply (process_pairs_values_with_distinct_frequencies
           StandIn.samplerate_resample StandIn.binned_fft a_bar_and_a_half
           two_bands_process [Qc_of_Z 1; Qc_of_Z 2; Qc_of_Z 3; Qc_of_Z 4] 1000).
  vm_compute; reflexivity.
Defined.

End AudioProcessProofs.

(** * Properties of the realtime audio source *)

Module AudioSourceRealtimeProofs.
Import AudioFileRead AudioSourceRealtime.

(** Which recorder [init] settles on: a device handed in, whatever else
    is asked; otherwise, with the search on, the first device of the list
    that is marked as loopback. *)
Theorem init_selects_the_recorder (all_microphones : list device)
    (recorder : option (option device)) (recorder_device : option device)
    (search_for_loopback : bool) (d : device) :
  recorder_device = Some d \/
  (recorder_device = None /\ search_for_loopback = true /\
   exists before after : list device,
     all_microphones = before ++ d :: after /\
     isloopback d = true /\
     Forall (fun other : device => isloopback other = false) before) ->
  realtime_init all_microphones recorder recorder_device search_for_loopback = Return d.
Proof.
  unfold realtime_init. intros [->|(-> & -> & before & after & -> & Hd & Hbefore)].
  - rewrite bool_decide_eq_false_2 by done. by rewrite andb_false_r.
  - rewrite bool_decide_eq_true_2 by done. simpl.
    assert (Hfind : list_find (fun d0 : device => isloopback d0 = true)
                      (before ++ d :: after) = Some (length before, d)).
    { apply list_find_Some. split_and!.
      - by rewrite lookup_app_r, Nat.sub_diag by lia.
      - done.
      - intros j y Hj Hlt. rewrite lookup_app_l in Hj by done.
        rewrite Forall_forall in Hbefore.
        rewrite (Hbefore y); [done|]. by eapply list_elem_of_lookup_2. }
    by rewrite Hfind.
Qed.

Lemma init_selects_the_recorder_witness :
  realtime_init [microphone; monitor; microphone] None None true = Return monitor.
Proof.
  apply (init_selects_the_recorder [microphone; monitor; microphone] None None
           true monitor).
  right. split_and!; try done.
  exists [microphone], [microphone]. split_and!; try done.
  by apply Forall_singleton.
Defined.

(** Without a recorder [init] raises.  On an object fresh from
    [__init__], which sets no [recorder], and with no loopback device in
    the list: with the search off the assertion fails; with the search on
    the assertion reads an attribute that does not exist, and the call
    raises [AttributeError] instead. *)
Theorem init_without_recorder_raises (all_microphones : list device)
    (search_for_loopback : bool) :
  Forall (fun other : device => isloopback other = false) all_microphones ->
  realtime_init all_microphones None None search_for_loopback =
  Raise (if search_for_loopback then "AttributeError" else "AssertionError").
Proof.
  unfold realtime_init. intros Hnone. rewrite bool_decide_eq_true_2 by done.
  destruct search_for_loopback; simpl; [|done].
  destruct (list_find _ all_microphones) as [[i d]|] eqn:Hfind; [|done].
  apply list_find_Some in Hfind as (Hi & Hd & _).
  rewrite Forall_forall in Hnone. rewrite (Hnone d) in Hd; [done|].
  by eapply list_elem_of_lookup_2.
Qed.

Lemma init_without_recorder_raises_witness :
  realtime_init [microphone; microphone] None None true = Raise "AttributeError".
Proof.
  apply (init_without_recorder_raises [microphone; microphone] true).
  repeat (apply Forall_cons; split; [done|]). apply Forall_nil_2.
Defined.

Lemma np_roll_length (a : list Qc) (shift : Z) :
  length (np_roll a shift) = length a.
Proof.
  unfold np_roll. destruct a as [|x a]; [done|].
  rewrite length_app, length_drop, length_take. lia.
Qed.

Lemma imap_pair_range (k : nat) :
  imap pair (py_range (Z.of_nat k))
  = map (fun i : nat => (i, Z.of_nat i)) (seq 0 k).
Proof.
  unfold py_range. rewrite Nat2Z.id. apply list_eq. intros i.
  rewrite list_lookup_imap, !list_lookup_fmap.
  destruct (seq 0 k !! i) as [j|] eqn:Hj; simpl; [|done].
  apply lookup_seq in Hj as [-> _]. done.
Qed.

(** Putting a value at every place of a row, from the first on. *)
Lemma put_at_every_place (f : nat -> Qc) (n : nat) (a : list Qc) :
  length a = n ->
  forall k : nat, k <= n ->
  fold_left
    (fun (acc : list Qc) (place : nat * Z) =>
       <[Z.to_nat (place.2 mod Z.of_nat n) := f place.1]> acc)
    (map (fun i : nat => (i, Z.of_nat i)) (seq 0 k)) a
  = map f (seq 0 k) ++ drop k a.
Proof.
  intros Hlen. induction k as [|k IH]; intros Hk; [done|].
  rewrite seq_S, !map_app, fold_left_app, IH by lia. simpl.
  rewrite Z.mod_small, Nat2Z.id by lia.
  destruct (lookup_lt_is_Some_2 a k) as [x Hx]; [lia|].
  rewrite (drop_S a x k Hx).
  rewrite insert_app_r_alt by (rewrite length_map, length_seq; lia).
  rewrite length_map, length_seq, Nat.sub_diag. simpl.
  by rewrite <- app_assoc.
Qed.

(** With values at hand, [np.put] over [range(0, len(a))] leaves the
    values only, repeated as often as the row needs. *)
Lemma np_put_wrap_whole_row (a v : list Qc) (batch_size : Z) :
  length a = Z.to_nat batch_size -> (0 <= batch_size)%Z -> 0 < length v ->
  np_put_wrap a (py_range batch_size) v
  = Return (tiled (Z.to_nat batch_size) v).
Proof.
  intros Hlen Hsize Hv. unfold np_put_wrap.
  destruct v as [|v0 v]; [simpl in Hv; lia|].
  remember (Z.to_nat batch_size) as n eqn:Hn.
  assert (batch_size = Z.of_nat n) as -> by lia. clear Hn Hsize.
  destruct a as [|a0 a].
  - simpl in Hlen. by rewrite <- Hlen.
  - rewrite imap_pair_range.
    rewrite (put_at_every_place (fun i => nth (i mod length (v0 :: v)) (v0 :: v) 0%Qc)
               (length (a0 :: a)) (a0 :: a) eq_refl n)
      by lia.
    rewrite drop_ge by lia. by rewrite app_nil_r.
Qed.

(** A turn of the capture loop leaves nothing of the old batch.  When the
    recorder hands back at least one frame of stereo, each row of
    [current_batch] ends up holding the new data of its channel, repeated
    from the start of the row to its end: the shift by [np.roll] and the
    fading by 0.95 are overwritten with the rest. *)
Theorem refresh_batch_keeps_only_new_data
    (record : Z -> ndarray) (batch_size numframes : Z)
    (old0 old1 new0 new1 : list Qc) (more : list (list Qc)) (frames : nat) :
  T (record numframes) = Array2 frames (new0 :: new1 :: more) ->
  0 < length new0 -> 0 < length new1 ->
  (0 <= batch_size)%Z ->
  length old0 = Z.to_nat batch_size -> length old1 = Z.to_nat batch_size ->
  refresh_batch record batch_size (Some numframes) [old0; old1]
  = Return [tiled (Z.to_nat batch_size) new0; tiled (Z.to_nat batch_size) new1].
Proof.
  intros Hnew H0 H1 Hsize Hold0 Hold1. unfold refresh_batch. simpl.
  rewrite Hnew. unfold for_channel.
  cbn [map getitem lookup list_lookup mbind result_bind].
  rewrite np_put_wrap_whole_row;
    [|by rewrite length_map, np_roll_length | done | done].
  cbn [mbind result_bind insert list_insert getitem lookup list_lookup].
  rewrite np_put_wrap_whole_row;
    [|by rewrite length_map, np_roll_length | done | done].
  done.
Qed.

Lemma refresh_batch_keeps_only_new_data_witness :
  refresh_batch counting_recorder 5 (Some 2%Z)
    [[Qc_of_Z 9; Qc_of_Z 9; Qc_of_Z 9; Qc_of_Z 9; Qc_of_Z 9];
     [Qc_of_Z 8; Qc_of_Z 8; Qc_of_Z 8; Qc_of_Z 8; Qc_of_Z 8]]
  = Return [tiled (Z.to_nat 5) [Qc_of_Z 0; Qc_of_Z 1];
            tiled (Z.to_nat 5) [Qc_of_Z (- 0); Qc_of_Z (- 1)]].
Proof.
  apply (refresh_batch_keeps_only_new_data counting_recorder 5 2
           [Qc_of_Z 9; Qc_of_Z 9; Qc_of_Z 9; Qc_of_Z 9; Qc_of_Z 9]
           [Qc_of_Z 8; Qc_of_Z 8; Qc_of_Z 8; Qc_of_Z 8; Qc_of_Z 8]
           [Qc_of_Z 0; Qc_of_Z 1] [Qc_of_Z (- 0); Qc_of_Z (- 1)] [] 2).
  - reflexivity.
  - simpl. lia.
  - simpl. lia.
  - lia.
  - reflexivity.
  - reflexivity.
Defined.

End AudioSourceRealtimeProofs.

(** * Properties of [Utils.is_matching_type] *)

Module UtilsProofs.
Import Utils.

Lemma evens_cons {A : Type} (x : A) (l : list A) :
  evens (x :: l) = x :: evens (tail l).
Proof. by destruct l. Qed.

Lemma odds_cons {A : Type} (x : A) (l : list A) : odds (x :: l) = evens l.
Proof. done. Qed.

Section IsMatchingType.

Context {object type : Type}.
Variable isinstance : object -> type -> bool.

(** The inner loop, from the place [wanted_index] on: it asks for the
    entries at every second place from there, removes those it accepted,
    and stops at the first it does not accept. *)
Lemma for_wanted_spec (item : object) : forall (steps wanted_index : nat)
    (wanted : list type),
  length wanted - wanted_index <= steps ->
  let inner := for_wanted isinstance steps item wanted_index wanted in
  (inner.1 = true <->
   Forall (fun t : type => isinstance item t = true)
     (evens (drop wanted_index wanted))) /\
  (inner.1 = true ->
   inner.2 = take wanted_index wanted ++ odds (drop wanted_index wanted)).
Proof.
  induction steps as [|steps IH]; intros wanted_index wanted Hsteps; simpl.
  - rewrite drop_ge by lia. rewrite take_ge by lia.
    split; [done|]. intros _. by rewrite app_nil_r.
  - destruct (wanted !! wanted_index) as [wanted_type|] eqn:Hlook.
    2:{ apply lookup_ge_None in Hlook.
        rewrite drop_ge by lia. rewrite take_ge by lia. simpl.
        split; [done|]. intros _. by rewrite app_nil_r. }
    rewrite (drop_S _ _ _ Hlook), evens_cons, odds_cons.
    destruct (isinstance item wanted_type) eqn:Hinst; simpl.
    2:{ split; [|done]. split; [done|].
        intros Hall. apply Forall_cons in Hall as [Hall _]. congruence. }
    pose proof (lookup_lt_Some _ _ _ Hlook) as Hlt.
    assert (Hdel : delete wanted_index wanted
                   = take wanted_index wanted ++ drop (S wanted_index) wanted).
    { by rewrite delete_take_drop. }
    destruct (IH (S wanted_index) (delete wanted_index wanted)) as [Hiff Hout].
    { rewrite length_delete by (by eexists). lia. }
    assert (Hdrop : drop (S wanted_index) (delete wanted_index wanted)
                    = tail (drop (S wanted_index) wanted)).
    { rewrite Hdel. generalize (drop (S wanted_index) wanted). intros rest.
      replace (S wanted_index) with (wanted_index + 1) by lia.
      rewrite drop_app_add' by (rewrite length_take; lia).
      by destruct rest. }
    assert (Htake : take (S wanted_index) (delete wanted_index wanted)
                    = take wanted_index wanted
                      ++ take 1 (drop (S wanted_index) wanted)).
    { rewrite Hdel. generalize (drop (S wanted_index) wanted). intros rest.
      replace (S wanted_index) with (wanted_index + 1) by lia.
      by rewrite take_app_add' by (rewrite length_take; lia). }
    rewrite Hdrop in Hiff, Hout. rewrite Htake in Hout.
    split.
    + rewrite Hiff. split; [intros Hall; by apply Forall_cons|].
      intros Hall. by apply Forall_cons in Hall as [_ Hall].
    + intros Hok. rewrite (Hout Hok), <- app_assoc. f_equal.
      destruct (drop (S wanted_index) wanted) as [|y rest]; [done|].
      by rewrite evens_cons.
Qed.

(** What [is_matching_type] answers.  Each item in turn is compared with
    the entries at the places 0, 2, 4, ... of [wanted], which the call
    removes from the caller's list; the next item meets what is left, the
    entries that stood at the odd places.  The answer is [True] exactly
    when every item is an instance of all the types it is compared with,
    and [wanted] is then halved once for every item. *)
Theorem is_matching_type_compares_every_second_type
    (items : list object) : forall wanted : list type,
  ((is_matching_type isinstance items wanted).1 = true <->
   forall (k : nat) (item : object),
     items !! k = Some item ->
     Forall (fun t : type => isinstance item t = true)
       (evens (Nat.iter k odds wanted))) /\
  ((is_matching_type isinstance items wanted).1 = true ->
   (is_matching_type isinstance items wanted).2
   = Nat.iter (length items) odds wanted).
Proof.
  unfold is_matching_type.
  induction items as [|item rest IH]; intros wanted; simpl.
  - split; [|done]. split; [|done]. intros _ k item Hk. done.
  - destruct (for_wanted_spec item (length wanted) 0 wanted) as [Hiff Hout];
      [lia|].
    simpl in Hiff, Hout. rewrite drop_0 in Hiff, Hout.
    destruct (for_wanted isinstance (length wanted) item 0 wanted)
      as [[|] wanted'] eqn:Hinner; cbn [fst snd] in *.
    + rewrite (Hout eq_refl). destruct (IH (odds wanted)) as [IHiff IHout].
      split.
      * rewrite IHiff. split.
        -- intros Hrest [|k] it Hk.
           ++ injection Hk as <-. by apply Hiff.
           ++ rewrite Nat.iter_succ_r. by apply Hrest.
        -- intros Hall k it Hk. rewrite <- Nat.iter_succ_r.
           by apply (Hall (S k)).
      * intros Hok. rewrite (IHout Hok). apply Nat.iter_swap.
    + split; [|done]. split; [done|].
      intros Hall. apply Hiff. by apply (Hall 0).
Qed.

End IsMatchingType.

End UtilsProofs.

(** * Properties of the step functions *)

Module InterpolationProofs.
Import Interpolation.



End InterpolationProofs.

(** * Properties of [raw_audio_from_file] *)

Module RawAudioProofs.
Import AudioSourceRealtime AudioSourceRealtimeProofs RawAudio.

(** Group [j] of a byte string. *)
Lemma groups_lookup {A : Type} (n : nat) : forall (steps : nat) (l : list A) (j : nat),
  0 < n -> length l <= steps -> j * n < length l ->
  groups steps n l !! j = Some (take n (drop (j * n) l)).
Proof.
  induction steps as [|steps IH]; intros l j Hn Hsteps Hj; [lia|].
  destruct l as [|x l]; [simpl in Hj; lia|].
  cbn [groups]. destruct j as [|j]; [done|].
  cbn [lookup list_lookup]. change (list_lookup j ?l) with (l !! j).
  rewrite IH.
  - by rewrite drop_drop.
  - done.
  - rewrite length_drop. simpl in Hsteps. destruct n; [lia|]. simpl. lia.
  - rewrite length_drop. simpl in Hj |- *. lia.
Qed.

Lemma groups_length {A : Type} (n : nat) : forall (steps : nat) (l : list A) (m : nat),
  0 < n -> length l <= steps -> length l = m * n ->
  length (groups steps n l) = m.
Proof.
  induction steps as [|steps IH]; intros l m Hn Hsteps Hlen.
  - destruct m; [done|]. destruct n; lia.
  - destruct l as [|x l].
    { destruct m; [done|]. simpl in Hlen. destruct n; lia. }
    cbn [groups length]. destruct m as [|m]; [simpl in Hlen; lia|].
    f_equal. apply IH; [done | |].
    + rewrite length_drop. simpl in Hsteps. destruct n; [lia|]. simpl. lia.
    + rewrite length_drop, Hlen. simpl. lia.
Qed.

Lemma map_nth_seq (l : list Qc) :
  map (fun i : nat => nth (i mod length l) l 0%Qc) (seq 0 (length l)) = l.
Proof.
  apply list_eq. intros i. rewrite list_lookup_fmap.
  destruct (decide (i < length l)) as [Hi|Hi].
  - rewrite lookup_seq_lt by done. simpl. rewrite Nat.mod_small by done.
    destruct (lookup_lt_is_Some_2 l i Hi) as [x Hx].
    rewrite Hx. f_equal. by apply nth_lookup_Some with (d := 0%Qc) in Hx.
  - rewrite lookup_seq_ge by lia. simpl. symmetry. apply lookup_ge_None. lia.
Qed.

(** [np.put] of some values into a row that is not empty. *)
Lemma np_put_on_a_row (a : list Qc) (ind : list Z) (v : list Qc) :
  a <> [] /\ v <> [] ->
  np_put a ind v
  = let n := Z.of_nat (length a) in
    if forallb (fun i : Z => (- n <=? i)%Z && (i <? n)%Z) ind then
      Return
        (fold_left
           (fun (acc : list Qc) (place : nat * Z) =>
              <[Z.to_nat (place.2 mod n) := nth (place.1 mod length v) v 0%Qc]> acc)
           (imap pair ind) a)
    else Raise "IndexError".
Proof. intros [Ha Hv]. by destruct a, v. Qed.

(** [np.put] of as many values as places, from the first place on, into a
    row of zeros. *)
Lemma np_put_prefix (batch_size : nat) (values : list Qc) :
  length values <= batch_size ->
  np_put (replicate batch_size 0%Qc) (py_range (Z.of_nat (length values))) values
  = Return (values ++ replicate (batch_size - length values) 0%Qc).
Proof.
  intros Hle.
  destruct values as [|v0 vs] eqn:Hvalues.
  { rewrite Nat.sub_0_r. by destruct batch_size. }
  rewrite <- Hvalues in *.
  rewrite np_put_on_a_row
    by (subst values; destruct batch_size; [simpl in Hle; lia | done]).
  clear Hvalues.
  assert (Hin : forallb
            (fun i : Z =>
               (- Z.of_nat (length (replicate batch_size 0%Qc)) <=? i)%Z
               && (i <? Z.of_nat (length (replicate batch_size 0%Qc)))%Z)
            (py_range (Z.of_nat (length values))) = true).
  { apply forallb_forall. intros i Hi. apply in_map_iff in Hi as (k & <- & Hk).
    apply in_seq in Hk. rewrite length_replicate.
    apply andb_true_iff. split; [apply Z.leb_le | apply Z.ltb_lt]; lia. }
  cbv zeta. rewrite Hin, imap_pair_range.
  rewrite (put_at_every_place (fun i => nth (i mod length values) values 0%Qc)
             (length (replicate batch_size 0%Qc)) (replicate batch_size 0%Qc)
             eq_refl (length values))
    by (rewrite length_replicate; lia).
  by rewrite map_nth_seq, drop_replicate.
Qed.

Section Decoder.

Variable float32 : list Byte.byte -> Qc.

Local Notation np_fromstring := (np_fromstring float32).
Local Notation decode_batch := (decode_batch float32).
Local Notation read_loop := (read_loop float32).
Local Notation raw_audio_from_file := (raw_audio_from_file float32).
Local Notation sample := (sample float32).
Local Notation batch := (batch float32).

(** The float32 values of a byte string of [m] groups of four. *)
Lemma np_fromstring_samples (data : list Byte.byte) (m : nat) :
  length data = 4 * m ->
  np_fromstring data
  = Return (map (fun t : nat => float32 (take 4 (drop (4 * t) data))) (seq 0 m)).
Proof.
  intros Hlen. unfold RawAudio.np_fromstring.
  rewrite decide_True by (rewrite Hlen, Nat.mul_comm; apply Nat.Div0.mod_mul).
  f_equal. apply list_eq. intros i. rewrite !list_lookup_fmap.
  destruct (decide (i < m)) as [Hi|Hi].
  - rewrite groups_lookup by lia. rewrite lookup_seq_lt by done. simpl.
    by rewrite (Nat.mul_comm i 4).
  - rewrite lookup_seq_ge by lia.
    rewrite (proj2 (lookup_ge_None _ _)); [done|].
    rewrite (groups_length 4 _ _ m); lia.
Qed.

(** The loop over the channels fills row after row of the zeros with the
    values of its channel. *)
Lemma for_channels_rows (data : list (list Qc)) (channels batch_size columns : nat) :
  length data = channels ->
  Forall (fun values : list Qc => length values = columns) data ->
  columns <= batch_size ->
  forall k a : nat, a + k <= channels ->
  for_channels data columns (seq a k)
    (map (fun values : list Qc =>
            values ++ replicate (batch_size - columns) 0%Qc) (take a data)
     ++ replicate (channels - a) (replicate batch_size 0%Qc))
  = Return
      (map (fun values : list Qc =>
              values ++ replicate (batch_size - columns) 0%Qc) (take (a + k) data)
       ++ replicate (channels - (a + k)) (replicate batch_size 0%Qc)).
Proof.
  intros Hdata Hall Hle. induction k as [|k IH]; intros a Hk.
  - simpl. by rewrite Nat.add_0_r.
  - cbn [seq for_channels].
    assert (Ha : length (take a data) = a) by (rewrite length_take; lia).
    unfold getitem.
    rewrite lookup_app_r by (rewrite length_map; lia).
    rewrite length_map, Ha, Nat.sub_diag.
    replace (channels - a) with (S (channels - S a)) by lia.
    cbn [replicate lookup list_lookup mbind result_bind].
    destruct (lookup_lt_is_Some_2 data a) as [values Hvalues]; [lia|].
    rewrite Hvalues. cbn [mbind result_bind].
    assert (Hcols : length values = columns).
    { rewrite Forall_forall in Hall. apply Hall.
      by eapply list_elem_of_lookup_2. }
    rewrite <- Hcols, np_put_prefix by lia. cbn [mbind result_bind].
    rewrite insert_app_r_alt by (rewrite length_map; lia).
    rewrite length_map, Ha, Nat.sub_diag. cbn [insert list_insert].
    rewrite Hcols.
    replace (a + S k) with (S a + k) by lia.
    rewrite <- IH by lia.
    f_equal. rewrite (take_S_r data a values Hvalues), map_app.
    by rewrite <- app_assoc.
Qed.

(** One batch: row [c] holds the samples of channel [c], frame after
    frame, and zeros after the last frame. *)
Lemma decode_batch_rows (channels batch_size columns : nat) (data : list Byte.byte) :
  0 < channels -> columns <= batch_size ->
  length data = 4 * (columns * channels) ->
  decode_batch channels batch_size data
  = Return
      (map (fun c : nat =>
              map (fun j : nat => sample data channels j c) (seq 0 columns)
              ++ replicate (batch_size - columns) 0%Qc)
         (seq 0 channels)).
Proof.
  intros Hch Hcols Hlen. unfold RawAudio.decode_batch.
  rewrite (np_fromstring_samples data (columns * channels)) by done.
  cbn [mbind result_bind].
  set (flat := map _ (seq 0 (columns * channels))).
  assert (Hflat : length flat = columns * channels).
  { unfold flat. by rewrite length_map, length_seq. }
  unfold reshape_F. rewrite decide_False by lia.
  rewrite decide_True by (rewrite Hflat; apply Nat.Div0.mod_mul).
  cbn [mbind result_bind]. rewrite Hflat, Nat.div_mul by lia.
  set (rows := map _ (seq 0 channels)).
  assert (Hrows : length rows = channels).
  { unfold rows. by rewrite length_map, length_seq. }
  assert (Hall : Forall (fun values : list Qc => length values = columns) rows).
  { apply Forall_forall. intros values Hin.
    apply list_elem_of_fmap in Hin as (c & -> & _).
    by rewrite length_map, length_seq. }
  pose proof (for_channels_rows rows channels batch_size columns Hrows Hall
                Hcols channels 0) as Hfor.
  rewrite Nat.sub_0_r, Nat.add_0_l, Nat.sub_diag in Hfor.
  simpl in Hfor. rewrite Hfor by lia. f_equal.
  rewrite app_nil_r, take_ge by lia.
  unfold rows. rewrite <- list_fmap_compose.
  apply list_fmap_ext. intros c ? Hc. apply lookup_seq in Hc as [-> Hc].
  simpl. f_equal.
  apply list_fmap_ext. intros j ? Hj. apply lookup_seq in Hj as [-> Hj].
  simpl. unfold flat, RawAudio.sample.
  rewrite (nth_lookup_Some _ _ 0%Qc
             (float32 (take 4 (drop (4 * (c + j * channels)) data)))).
  - do 3 f_equal. lia.
  - rewrite list_lookup_fmap, lookup_seq_lt by nia. done.
Qed.

Lemma take_inside {A : Type} (l : list A) (a n size : nat) :
  a + n <= size -> take n (drop a (take size l)) = take n (drop a l).
Proof.
  intros Hle. rewrite !take_drop_commute, take_take. do 2 f_equal. lia.
Qed.

(** The first batch, read off the first bytes of the stream. *)
Lemma first_batch (stdout : list Byte.byte) (channels batch_size frames : nat) :
  0 < channels -> 0 < batch_size ->
  length stdout = 4 * (frames * channels) ->
  decode_batch channels batch_size (take (4 * channels * batch_size) stdout)
  = Return (batch stdout channels batch_size frames 0).
Proof.
  intros Hch Hbs Hlen.
  set (size := 4 * channels * batch_size).
  set (columns := Nat.min batch_size frames).
  rewrite (decode_batch_rows channels batch_size columns);
    [|done | lia | rewrite length_take, Hlen; nia].
  f_equal. unfold RawAudio.batch.
  apply list_fmap_ext. intros c ? Hc. apply lookup_seq in Hc as [-> Hc].
  rewrite Nat.add_0_l.
  assert (Hseq : seq 0 batch_size
                 = seq 0 columns ++ seq columns (batch_size - columns)).
  { rewrite <- seq_app. f_equal. lia. }
  rewrite Hseq, map_app. f_equal.
  - apply list_fmap_ext. intros i ? Hi. apply lookup_seq in Hi as [-> Hi].
    rewrite !Nat.add_0_l.
    rewrite decide_True by lia. unfold RawAudio.sample.
    rewrite take_inside; [done | nia].
  - assert (Hn : 0 < batch_size - columns -> frames <= columns) by lia.
    revert Hn. generalize (batch_size - columns). intros n Hn.
    apply list_eq. intros i. rewrite list_lookup_fmap.
    destruct (decide (i < n)) as [Hi|Hi].
    + rewrite lookup_seq_lt by done. cbn [fmap option_fmap option_map].
      rewrite decide_False by lia.
      by apply lookup_replicate_2.
    + rewrite lookup_seq_ge by lia. cbn [fmap option_fmap option_map].
      apply lookup_replicate_None. lia.
Qed.

(** A later batch is the batch before it of the stream without its first
    [batch_size] frames. *)
Lemma later_batch (stdout : list Byte.byte) (channels batch_size frames k : nat) :
  batch_size <= frames ->
  batch (drop (4 * channels * batch_size) stdout) channels batch_size
    (frames - batch_size) k
  = batch stdout channels batch_size frames (S k).
Proof.
  intros Hle. unfold RawAudio.batch.
  apply list_fmap_ext. intros ? c _.
  apply list_fmap_ext. intros ? j _.
  destruct (decide (k * batch_size + j < frames - batch_size)) as [Hin|Hout].
  - rewrite decide_True by (simpl; lia).
    unfold RawAudio.sample. rewrite drop_drop. do 3 f_equal. simpl. nia.
  - rewrite decide_False by (simpl; lia). done.
Qed.

(** The loop yields batch after batch until the stream is used up. *)
Lemma read_loop_batches (channels batch_size : nat) :
  0 < channels -> 0 < batch_size ->
  forall (steps : nat) (stdout : list Byte.byte) (frames : nat),
  length stdout = 4 * (frames * channels) ->
  length stdout <= steps ->
  read_loop steps channels batch_size stdout
  = {| yields := map (batch stdout channels batch_size frames)
                   (seq 0 ((frames + batch_size - 1) / batch_size));
       raised := None |}.
Proof.
  intros Hch Hbs. induction steps as [|steps IH]; intros stdout frames Hlen Hsteps.
  - assert (frames = 0) as -> by nia.
    rewrite Nat.add_0_l, Nat.div_small by lia. done.
  - cbn [RawAudio.read_loop].
    destruct (decide (frames = 0)) as [->|Hframes].
    { destruct stdout; [|simpl in Hlen; lia].
      rewrite take_nil, Nat.add_0_l, Nat.div_small by lia. done. }
    destruct (take (4 * channels * batch_size) stdout) as [|b data] eqn:Htake.
    { apply (f_equal length) in Htake. rewrite length_take, Hlen in Htake.
      simpl in Htake. nia. }
    rewrite <- Htake, (first_batch stdout channels batch_size frames) by done.
    destruct (decide (batch_size <= frames)) as [Hfull|Hshort].
    + rewrite (IH _ (frames - batch_size));
        [|rewrite length_drop, Hlen; nia | rewrite length_drop; nia].
      cbn [yields raised].
      replace ((frames + batch_size - 1) / batch_size)
        with (S ((frames - batch_size + batch_size - 1) / batch_size)).
      2:{ replace (frames + batch_size - 1)
            with (frames - batch_size + batch_size - 1 + 1 * batch_size) by lia.
          rewrite Nat.div_add by lia. lia. }
      cbn [seq map]. rewrite <- seq_shift, map_map. do 2 f_equal.
      apply list_fmap_ext. intros ? k _. by apply later_batch.
    + rewrite (IH _ 0);
        [|rewrite length_drop, Hlen; nia | rewrite length_drop; nia].
      cbn [yields raised].
      rewrite (Nat.div_small (0 + batch_size - 1)) by lia.
      replace ((frames + batch_size - 1) / batch_size) with 1; [done|].
      apply Nat.div_unique with (r := frames - 1); lia.
Qed.

(** Bytes that are no whole number of frames cannot be decoded. *)
Lemma decode_batch_partial (channels batch_size : nat) (data : list Byte.byte) :
  0 < channels ->
  length data mod (4 * channels) <> 0 ->
  decode_batch channels batch_size data = Raise "ValueError".
Proof.
  intros Hch Hmod. unfold RawAudio.decode_batch, RawAudio.np_fromstring.
  destruct (decide (length data mod 4 = 0)) as [H4|H4]; [|done].
  cbn [mbind result_bind]. unfold reshape_F.
  rewrite decide_False by lia.
  rewrite length_map, (groups_length 4 _ _ (length data / 4));
    [|lia | done | ].
  2:{ pose proof (Nat.div_mod_eq (length data) 4). lia. }
  rewrite decide_False; [done|].
  intros Hframes. apply Hmod. rewrite Nat.Div0.mod_mul_r. lia.
Qed.

(** A stream that ends inside a frame: the whole batches are yielded, the
    last read raises. *)
Lemma read_loop_partial (channels batch_size : nat) :
  0 < channels -> 0 < batch_size ->
  forall (steps : nat) (stdout : list Byte.byte),
  length stdout <= steps ->
  length stdout mod (4 * channels) <> 0 ->
  raised (read_loop steps channels batch_size stdout) = Some "ValueError"
  /\ length (yields (read_loop steps channels batch_size stdout))
     = length stdout / (4 * channels * batch_size).
Proof.
  intros Hch Hbs. induction steps as [|steps IH]; intros stdout Hsteps Hmod.
  { exfalso. apply Hmod. replace (length stdout) with 0 by lia.
    apply Nat.Div0.mod_0_l. }
  assert (Hsome : 0 < length stdout).
  { destruct (length stdout); [|lia]. exfalso. apply Hmod. apply Nat.Div0.mod_0_l. }
  cbn [RawAudio.read_loop]. cbv zeta.
  set (size := 4 * channels * batch_size).
  assert (Hsize : size = batch_size * (4 * channels)) by (unfold size; lia).
  destruct (take size stdout) as [|b data] eqn:Htake.
  { apply (f_equal length) in Htake. rewrite length_take in Htake.
    simpl in Htake. nia. }
  rewrite <- Htake.
  destruct (decide (size <= length stdout)) as [Hfull|Hshort].
  - pose proof (first_batch (take size stdout) channels batch_size batch_size
                  Hch Hbs) as Hfirst.
    fold size in Hfirst. rewrite take_take, Nat.min_id in Hfirst.
    rewrite Hfirst by (rewrite length_take; lia).
    cbn [yields raised length].
    destruct (IH (drop size stdout)) as [Hraised Hyields].
    + rewrite length_drop. lia.
    + rewrite length_drop.
      replace (length stdout)
        with (length stdout - size + batch_size * (4 * channels)) in Hmod by lia.
      by rewrite Nat.Div0.mod_add in Hmod.
    + split; [done|]. rewrite Hyields, length_drop.
      fold size. assert (0 < size) by nia.
      replace (length stdout) with (length stdout - size + 1 * size) at 2 by lia.
      rewrite Nat.div_add by lia. lia.
  - rewrite take_ge by lia.
    rewrite decode_batch_partial by done.
    cbn [yields raised length]. split; [done|].
    fold size. by rewrite Nat.div_small by lia.
Qed.

(** The batches are the stream, de-interleaved.  For a decoder that
    writes [frames] whole frames of [channels] float32 samples each,
    [raw_audio_from_file] raises nothing and yields the batches
    [0 .. ceil(frames / batch_size) - 1]; row [c] of batch [k] holds, at
    place [i], sample [c] of frame [k * batch_size + i], and 0 from the end
    of the stream on. *)
Theorem raw_audio_is_deinterleaved (stdout : list Byte.byte)
    (batch_size channels : Z) (frames : nat) :
  (1 <= channels)%Z -> (1 <= batch_size)%Z ->
  length stdout = 4 * (frames * Z.to_nat channels) ->
  raw_audio_from_file stdout batch_size channels
  = {| yields :=
         map (batch stdout (Z.to_nat channels) (Z.to_nat batch_size) frames)
           (seq 0 ((frames + Z.to_nat batch_size - 1) / Z.to_nat batch_size));
       raised := None |}.
Proof.
  intros Hch Hbs Hlen. unfold RawAudio.raw_audio_from_file.
  destruct (Z.ltb_spec channels 0) as [|_]; [lia|].
  destruct (Z.ltb_spec batch_size 0) as [|_]; [lia|].
  cbn [orb]. apply read_loop_batches; (done || lia).
Qed.

(** A stream cut inside a frame ends the generator with an exception.
    When the decoder's output is not a whole number of frames of
    [channels] float32 samples, [raw_audio_from_file] yields the
    [length stdout / (4 * channels * batch_size)] whole batches and then
    raises [ValueError]: the rest of the stream is lost, not zero-filled. *)
Theorem raw_audio_cut_inside_a_frame_raises (stdout : list Byte.byte)
    (batch_size channels : Z) :
  (1 <= channels)%Z -> (1 <= batch_size)%Z ->
  length stdout mod (4 * Z.to_nat channels) <> 0 ->
  raised (raw_audio_from_file stdout batch_size channels) = Some "ValueError"
  /\ length (yields (raw_audio_from_file stdout batch_size channels))
     = length stdout / (4 * Z.to_nat channels * Z.to_nat batch_size).
Proof.
  intros Hch Hbs Hmod. unfold RawAudio.raw_audio_from_file.
  destruct (Z.ltb_spec channels 0) as [|_]; [lia|].
  destruct (Z.ltb_spec batch_size 0) as [|_]; [lia|].
  cbn [orb]. apply read_loop_partial; (done || lia).
Qed.

End Decoder.

Lemma raw_audio_cut_inside_a_frame_raises_witness :
  raised (raw_audio_from_file first_byte (three_stereo_frames ++ [Byte.x07]) 1 2)
  = Some "ValueError"
  /\ length (yields (raw_audio_from_file first_byte
                       (three_stereo_frames ++ [Byte.x07]) 1 2))
     = length (three_stereo_frames ++ [Byte.x07]) / (4 * Z.to_nat 2 * Z.to_nat 1).
Proof.
  apply (raw_audio_cut_inside_a_frame_raises first_byte
           (three_stereo_frames ++ [Byte.x07]) 1 2).
  - lia.
  - lia.
  - vm_compute. discriminate.
Defined.

Lemma raw_audio_is_deinterleaved_witness :
  raw_audio_from_file first_byte three_stereo_frames 2 2
  = {| yields :=
         map (batch first_byte three_stereo_frames (Z.to_nat 2) (Z.to_nat 2) 3)
           (seq 0 ((3 + Z.to_nat 2 - 1) / Z.to_nat 2));
       raised := None |}.
Proof.
  apply (raw_audio_is_deinterleaved first_byte three_stereo_frames 2 2 3).
  - lia.
  - lia.
  - reflexivity.
Defined.

End RawAudioProofs.
